(** * Gemini File Viewer (Py): a shallow embedding of [main.py]

    The program is a PySide6 window holding a read-only text pane and an
    image pane.  The embedding keeps the state the handlers of
    [ImageView] and [MainWindow] read and write, and gives each handler as a
    function on that state.

    - Python [float] is IEEE 754 binary64: it is modelled by the primitive
      floats, whose operations are the same correctly rounded ones.
    - Python [int] is [Z]; the sizes Qt hands out are C [int]s.
    - Python [str] is [string]; the model covers texts made of single-byte
      characters.
    - The file system and the image decoder are inputs of [load_path]. *)

From Stdlib Require Import ZArith List String Ascii Bool Lia Floats.
Import ListNotations.

Set Warnings "-inexact-float".

Open Scope Z_scope.

(** ** Python numbers *)

Module Py.

(** [max(a, b)] keeps [a] unless [b > a]; [min(a, b)] keeps [a] unless
    [b < a] (the builtins compare each later item against the current
    best with [>] and [<]). *)
Definition max (a b : float) : float := if (a <? b)%float then b else a.
Definition min (a b : float) : float := if (b <? a)%float then b else a.

(** [float(n)] for an [int] of at most 63 bits: exact below [2^53]. *)
Definition float_of_int (n : Z) : float :=
  if n <? 0 then (- PrimFloat.of_uint63 (Uint63.of_Z (- n)))%float
  else PrimFloat.of_uint63 (Uint63.of_Z n).

(** [a / b] on two [int]s whose values are exact as floats: the correctly
    rounded quotient.  [None] is [ZeroDivisionError]. *)
Definition true_div (a b : Z) : option float :=
  if b =? 0 then None else Some (float_of_int a / float_of_int b)%float.

(** The integer part of a finite float, rounded toward zero or toward
    minus infinity. *)
Definition shift_mantissa (m : positive) (e : Z) : Z :=
  match e with
  | Z0 => Zpos m
  | Zpos k => Zpos m * 2 ^ Zpos k
  | Zneg k => Zpos m / 2 ^ Zpos k
  end.

Definition ceil_mantissa (m : positive) (e : Z) : Z :=
  match e with
  | Z0 => Zpos m
  | Zpos k => Zpos m * 2 ^ Zpos k
  | Zneg k => - ((- Zpos m) / 2 ^ Zpos k)
  end.

(** [int(x)]: truncation toward zero; [None] is the [OverflowError] or
    [ValueError] raised on an infinity or a NaN. *)
Definition int_of_float (x : float) : option Z :=
  match Prim2SF x with
  | S754_zero _ => Some 0
  | S754_finite false m e => Some (shift_mantissa m e)
  | S754_finite true m e => Some (- shift_mantissa m e)
  | S754_infinity _ | S754_nan => None
  end.

(** [math.floor(x)]: the largest integer not above [x]. *)
Definition floor (x : float) : option Z :=
  match Prim2SF x with
  | S754_zero _ => Some 0
  | S754_finite false m e => Some (shift_mantissa m e)
  | S754_finite true m e => Some (- ceil_mantissa m e)
  | S754_infinity _ | S754_nan => None
  end.

(** [a // b] for [b > 0] is [Z.div], which rounds toward minus infinity. *)
Definition floordiv (a b : Z) : Z := a / b.

(** [str(n)] for a natural number. *)
Definition digit (n : nat) : ascii := ascii_of_nat (48 + n).

Fixpoint str_of_nat_fuel (fuel n : nat) (acc : string) : string :=
  match fuel with
  | O => acc
  | S fuel' =>
      let acc' := String (digit (Nat.modulo n 10)) acc in
      match Nat.div n 10 with
      | O => acc'
      | q => str_of_nat_fuel fuel' q acc'
      end
  end.

Definition str_of_nat (n : nat) : string := str_of_nat_fuel (S n) n EmptyString.

Definition str_of_Z (z : Z) : string :=
  if z <? 0 then String "-" (str_of_nat (Z.to_nat (- z)))
  else str_of_nat (Z.to_nat z).

End Py.

Open Scope string_scope.
Open Scope Z_scope.

(** ** Python and Qt strings *)

Module Str.

Definition newline : ascii := ascii_of_nat 10.

Definition is_empty (s : string) : bool :=
  match s with EmptyString => true | String _ _ => false end.

(** [c.lower()] on the ASCII letters. *)
Definition lower_char (c : ascii) : ascii :=
  let n := nat_of_ascii c in
  if (Nat.leb 65 n && Nat.leb n 90)%bool then ascii_of_nat (n + 32) else c.

Fixpoint lower (s : string) : string :=
  match s with
  | EmptyString => EmptyString
  | String c s' => String (lower_char c) (lower s')
  end.

(** [s.lstrip(".")]. *)
Fixpoint lstrip_dot (s : string) : string :=
  match s with
  | String "." s' => lstrip_dot s'
  | _ => s
  end.

(** The parts of [s] before and after the last [c], when [s] has one. *)
Fixpoint rsplit (c : ascii) (s : string) : option (string * string) :=
  match s with
  | EmptyString => None
  | String a s' =>
      match rsplit c s' with
      | Some (pre, post) => Some (String a pre, post)
      | None => if Ascii.eqb a c then Some (EmptyString, s') else None
      end
  end.

Fixpoint drop (n : nat) (s : string) : string :=
  match n, s with
  | O, _ => s
  | S _, EmptyString => EmptyString
  | S n', String _ s' => drop n' s'
  end.

(** Does [s] start with [needle]?  With [cs = false] letters are compared
    after case folding, as [Qt::CaseInsensitive] does. *)
Fixpoint starts_with (cs : bool) (needle s : string) : bool :=
  match needle, s with
  | EmptyString, _ => true
  | String _ _, EmptyString => false
  | String a n', String b s' =>
      (if cs then Ascii.eqb a b else Ascii.eqb (lower_char a) (lower_char b))
      && starts_with cs n' s'
  end.

(** [s.count(needle)]: occurrences found left to right, each search
    resuming after the end of the previous match.  [skip] is the number of
    characters of the last match still to step over. *)
Fixpoint count_skip (needle : string) (skip : nat) (s : string) : nat :=
  match s with
  | EmptyString =>
      match skip with
      | O => if starts_with true needle EmptyString then 1%nat else 0%nat
      | S _ => 0%nat
      end
  | String _ s' =>
      match skip with
      | S k => count_skip needle k s'
      | O =>
          if starts_with true needle s
          then S (count_skip needle (String.length needle - 1) s')
          else count_skip needle 0 s'
      end
  end.

Definition count (s needle : string) : nat := count_skip needle 0 s.

(** [QString::indexOf(needle, from, cs)] for a non-empty needle. *)
Fixpoint index_in (cs : bool) (needle s : string) : option nat :=
  match s with
  | EmptyString => None
  | String _ s' =>
      if starts_with cs needle s then Some 0%nat
      else option_map S (index_in cs needle s')
  end.

Definition indexOf (cs : bool) (s needle : string) (from : nat) : option nat :=
  option_map (Nat.add from) (index_in cs needle (drop from s)).

Fixpoint mem (x : string) (l : list string) : bool :=
  match l with
  | [] => false
  | y :: l' => String.eqb x y || mem x l'
  end.

End Str.

(** ** Paths *)

(** A [pathlib.Path], as the string [str(path)] returns; two paths are equal
    when these strings are. *)
Definition Path := string.

Module PathLib.

(** [path.name]: the last component. *)
Definition name (p : Path) : string :=
  match Str.rsplit "/" p with
  | Some (_, post) => post
  | None => p
  end.

(** [path.suffix]: with [i = name.rfind(".")], [name[i:]] when
    [0 < i < len(name) - 1], else the empty string. *)
Definition suffix (p : Path) : string :=
  match Str.rsplit "." (name p) with
  | Some (pre, post) =>
      if Str.is_empty pre || Str.is_empty post then EmptyString
      else String "." post
  | None => EmptyString
  end.

End PathLib.

Definition IMG_EXTS : list string := ["png"; "jpg"; "jpeg"; "gif"; "bmp"; "webp"].
Definition TXT_EXTS : list string :=
  ["txt"; "rs"; "py"; "toml"; "md"; "json"; "js"; "html"; "css"].

(** [ext = path.suffix.lower().lstrip(".")] *)
Definition ext_of (p : Path) : string :=
  Str.lstrip_dot (Str.lower (PathLib.suffix p)).

(** ** Qt values *)

(** A decoded, non-null [QPixmap]; sizes are C [int]s. *)
Record QPixmap := { pm_width : Z; pm_height : Z }.

Record QRect := { rx : Z; ry : Z; rw : Z; rh : Z }.

Record QFont := { family : string; pointSizeF : float }.

(** [font.setPointSizeF(size)]: Qt refuses a size that is not positive and
    leaves the font as it was. *)
Definition setPointSizeF (size : float) (f : QFont) : QFont :=
  if (size <=? 0)%float then f else {| family := family f; pointSizeF := size |}.

(** The geometry the layout gives the image label when it paints: its
    [width()] and [height()], and the size of its [contentsRect()]. *)
Record Geometry := { width : Z; height : Z; avail_width : Z; avail_height : Z }.

(** What the platform supplies: the font a new widget starts with and
    [QFontDatabase.systemFont(FixedFont)]. *)
Record System := { default_font : QFont; fixed_font : QFont }.

(** What the outside world answers to one [load_path]:
    - [QPixmap(str(path))]: the decoded pixmap, or [None] for a null one;
    - [open(path, "rb").read().decode("utf-8", errors="replace")]: the
      decoded text (decoding with replacement cannot fail), or the [errno]
      and [strerror] of the [OSError] that [open] or [read] raised. *)
Record FileSystem := {
  pixmap_of : Path -> option QPixmap;
  text_of : Path -> (Z * string) + string
}.

Inductive Exception :=
| RuntimeError (msg : string)
| OSError (errno : Z) (strerror : string) (filename : Path).

(** [str(e)] *)
Definition str_of_exception (e : Exception) : string :=
  match e with
  | RuntimeError msg => msg
  | OSError errno strerror filename =>
      ("[Errno " ++ Py.str_of_Z errno ++ "] " ++ strerror ++ ": '" ++ filename ++ "'")%string
  end.

(** ** class ImageView *)

Module ImageView.

Record t := {
  _pix : option QPixmap;
  zoom : float;
  fit_to_window : bool;
  visible : bool
}.

(** [__init__]; the window hides the label right after building it. *)
Definition init : t :=
  {| _pix := None; zoom := 1.0%float; fit_to_window := false; visible := true |}.

Definition set_zoom (z : float) (v : t) : t :=
  {| _pix := _pix v; zoom := z; fit_to_window := fit_to_window v; visible := visible v |}.
Definition set_fit (b : bool) (v : t) : t :=
  {| _pix := _pix v; zoom := zoom v; fit_to_window := b; visible := visible v |}.
Definition set_visible (b : bool) (v : t) : t :=
  {| _pix := _pix v; zoom := zoom v; fit_to_window := fit_to_window v; visible := b |}.
Definition set_pix (p : option QPixmap) (v : t) : t :=
  {| _pix := p; zoom := zoom v; fit_to_window := fit_to_window v; visible := visible v |}.

Definition hide := set_visible false.
Definition show := set_visible true.

(** [set_image]: stores the pixmap and resets [zoom]; [fit_to_window] is
    not touched. *)
Definition set_image (pix : QPixmap) (v : t) : t :=
  set_zoom 1.0%float (set_pix (Some pix) v).

Inductive painted :=
| Nothing                                  (* no pixmap: early return *)
| DrawPixmap (r : QRect) (pix : QPixmap)   (* painter.drawPixmap(QRect(x, y, w, h), pix) *)
| Raised.                                  (* an exception left the handler *)

(** The scale [paintEvent] computes: lines 36 to 41. *)
Definition scale_of (v : t) (pix : QPixmap) (g : Geometry) : option float :=
  if fit_to_window v && (0 <? pm_width pix) && (0 <? pm_height pix) then
    match Py.true_div (avail_width g) (pm_width pix),
          Py.true_div (avail_height g) (pm_height pix) with
    | Some sx, Some sy => Some (Py.max 0.1 (Py.min 6.0 (Py.min sx sy)))
    | _, _ => None
    end
  else Some (zoom v).

Definition paintEvent (v : t) (g : Geometry) : painted :=
  match _pix v with
  | None => Nothing
  | Some pix =>
      match scale_of v pix g with
      | None => Raised
      | Some scale =>
          match Py.int_of_float (Py.float_of_int (pm_width pix) * scale),
                Py.int_of_float (Py.float_of_int (pm_height pix) * scale) with
          | Some w, Some h =>
              let x := Py.floordiv (width g - w) 2 in
              let y := Py.floordiv (height g - h) 2 in
              DrawPixmap {| rx := x; ry := y; rw := w; rh := h |} pix
          | _, _ => Raised
          end
      end
  end.

(** [sizeHint]: the size of the pixmap when there is one, else what
    [QLabel.sizeHint] answers. *)
Definition sizeHint (v : t) (label_hint : Z * Z) : Z * Z :=
match _pix v with
| Some pix => (pm_width pix, pm_height pix)
| None => label_hint
end.

End ImageView.

(** ** class MainWindow *)

Inductive Widget := TextEdit | ImageLabel | OtherWidget.

Definition widget_eqb (a b : Widget) : bool :=
  match a, b with
  | TextEdit, TextEdit | ImageLabel, ImageLabel | OtherWidget, OtherWidget => true
  | _, _ => false
  end.

Inductive EventType := Wheel | OtherEvent.

(** A [QEvent] as [eventFilter] reads it: its type, [angleDelta().y()], and
    whether [QApplication.keyboardModifiers()] has the Control bit. *)
Record QEvent := { ev_type : EventType; angle_delta_y : Z; control : bool }.

Inductive MenuEntry :=
| Disabled (label : string)
| OpenRecent (p : Path)
| Separator
| ClearRecent.

(** The text cursor of the [QPlainTextEdit]: anchor and position. *)
Record QTextCursor := { anchor : nat; position : nat }.

Definition selectionEnd (c : QTextCursor) : nat := Nat.max (anchor c) (position c).
Definition selectionStart (c : QTextCursor) : nat := Nat.min (anchor c) (position c).

Module MainWindow.

Record t := {
  _current_path : option Path;
  _recents : list Path;
  text_plain : string;          (* self.text.toPlainText() *)
  text_visible : bool;          (* self.text.isVisible() *)
  text_cursor : QTextCursor;    (* self.text.textCursor() *)
  text_font : QFont;            (* self.text.font() *)
  text_zoom : float;
  image : ImageView.t;
  chk_fit : bool;               (* self.chk_fit.isChecked() *)
  find_edit : string;           (* self.find_edit.text() *)
  find_count : string;          (* self.find_count.text() *)
  status : string;              (* the status bar message *)
  recent_menu : list MenuEntry;
  dialogs : list (string * string);  (* QMessageBox.critical(title, text), oldest first *)
  filtered : list Widget        (* the objects the window filters events of *)
}.

Definition set_current_path x w :=
  {| _current_path := x; _recents := _recents w; text_plain := text_plain w;
     text_visible := text_visible w; text_cursor := text_cursor w;
     text_font := text_font w; text_zoom := text_zoom w; image := image w;
     chk_fit := chk_fit w; find_edit := find_edit w; find_count := find_count w;
     status := status w; recent_menu := recent_menu w; dialogs := dialogs w;
     filtered := filtered w |}.
Definition set_recents x w :=
  {| _current_path := _current_path w; _recents := x; text_plain := text_plain w;
     text_visible := text_visible w; text_cursor := text_cursor w;
     text_font := text_font w; text_zoom := text_zoom w; image := image w;
     chk_fit := chk_fit w; find_edit := find_edit w; find_count := find_count w;
     status := status w; recent_menu := recent_menu w; dialogs := dialogs w;
     filtered := filtered w |}.
Definition set_text_plain x w :=
  {| _current_path := _current_path w; _recents := _recents w; text_plain := x;
     text_visible := text_visible w; text_cursor := text_cursor w;
     text_font := text_font w; text_zoom := text_zoom w; image := image w;
     chk_fit := chk_fit w; find_edit := find_edit w; find_count := find_count w;
     status := status w; recent_menu := recent_menu w; dialogs := dialogs w;
     filtered := filtered w |}.
Definition set_text_visible x w :=
  {| _current_path := _current_path w; _recents := _recents w; text_plain := text_plain w;
     text_visible := x; text_cursor := text_cursor w;
     text_font := text_font w; text_zoom := text_zoom w; image := image w;
     chk_fit := chk_fit w; find_edit := find_edit w; find_count := find_count w;
     status := status w; recent_menu := recent_menu w; dialogs := dialogs w;
     filtered := filtered w |}.
Definition set_text_cursor x w :=
  {| _current_path := _current_path w; _recents := _recents w; text_plain := text_plain w;
     text_visible := text_visible w; text_cursor := x;
     text_font := text_font w; text_zoom := text_zoom w; image := image w;
     chk_fit := chk_fit w; find_edit := find_edit w; find_count := find_count w;
     status := status w; recent_menu := recent_menu w; dialogs := dialogs w;
     filtered := filtered w |}.
Definition set_text_font x w :=
  {| _current_path := _current_path w; _recents := _recents w; text_plain := text_plain w;
     text_visible := text_visible w; text_cursor := text_cursor w;
     text_font := x; text_zoom := text_zoom w; image := image w;
     chk_fit := chk_fit w; find_edit := find_edit w; find_count := find_count w;
     status := status w; recent_menu := recent_menu w; dialogs := dialogs w;
     filtered := filtered w |}.
Definition set_text_zoom x w :=
  {| _current_path := _current_path w; _recents := _recents w; text_plain := text_plain w;
     text_visible := text_visible w; text_cursor := text_cursor w;
     text_font := text_font w; text_zoom := x; image := image w;
     chk_fit := chk_fit w; find_edit := find_edit w; find_count := find_count w;
     status := status w; recent_menu := recent_menu w; dialogs := dialogs w;
     filtered := filtered w |}.
Definition set_image_view x w :=
  {| _current_path := _current_path w; _recents := _recents w; text_plain := text_plain w;
     text_visible := text_visible w; text_cursor := text_cursor w;
     text_font := text_font w; text_zoom := text_zoom w; image := x;
     chk_fit := chk_fit w; find_edit := find_edit w; find_count := find_count w;
     status := status w; recent_menu := recent_menu w; dialogs := dialogs w;
     filtered := filtered w |}.
Definition set_chk_fit x w :=
  {| _current_path := _current_path w; _recents := _recents w; text_plain := text_plain w;
     text_visible := text_visible w; text_cursor := text_cursor w;
     text_font := text_font w; text_zoom := text_zoom w; image := image w;
     chk_fit := x; find_edit := find_edit w; find_count := find_count w;
     status := status w; recent_menu := recent_menu w; dialogs := dialogs w;
     filtered := filtered w |}.
Definition set_find_edit x w :=
  {| _current_path := _current_path w; _recents := _recents w; text_plain := text_plain w;
     text_visible := text_visible w; text_cursor := text_cursor w;
     text_font := text_font w; text_zoom := text_zoom w; image := image w;
     chk_fit := chk_fit w; find_edit := x; find_count := find_count w;
     status := status w; recent_menu := recent_menu w; dialogs := dialogs w;
     filtered := filtered w |}.
Definition set_find_count x w :=
  {| _current_path := _current_path w; _recents := _recents w; text_plain := text_plain w;
     text_visible := text_visible w; text_cursor := text_cursor w;
     text_font := text_font w; text_zoom := text_zoom w; image := image w;
     chk_fit := chk_fit w; find_edit := find_edit w; find_count := x;
     status := status w; recent_menu := recent_menu w; dialogs := dialogs w;
     filtered := filtered w |}.
Definition set_status x w :=
  {| _current_path := _current_path w; _recents := _recents w; text_plain := text_plain w;
     text_visible := text_visible w; text_cursor := text_cursor w;
     text_font := text_font w; text_zoom := text_zoom w; image := image w;
     chk_fit := chk_fit w; find_edit := find_edit w; find_count := find_count w;
     status := x; recent_menu := recent_menu w; dialogs := dialogs w;
     filtered := filtered w |}.
Definition set_recent_menu x w :=
  {| _current_path := _current_path w; _recents := _recents w; text_plain := text_plain w;
     text_visible := text_visible w; text_cursor := text_cursor w;
     text_font := text_font w; text_zoom := text_zoom w; image := image w;
     chk_fit := chk_fit w; find_edit := find_edit w; find_count := find_count w;
     status := status w; recent_menu := x; dialogs := dialogs w;
     filtered := filtered w |}.
Definition set_dialogs x w :=
  {| _current_path := _current_path w; _recents := _recents w; text_plain := text_plain w;
     text_visible := text_visible w; text_cursor := text_cursor w;
     text_font := text_font w; text_zoom := text_zoom w; image := image w;
     chk_fit := chk_fit w; find_edit := find_edit w; find_count := find_count w;
     status := status w; recent_menu := recent_menu w; dialogs := x;
     filtered := filtered w |}.

(** Changing the image label in place. *)
Definition on_image (f : ImageView.t -> ImageView.t) (w : t) : t :=
  set_image_view (f (image w)) w.

(** [__init__], with the window shown: the text pane is visible, the image
    label hidden, and the window filters the events of the text pane only
    (line 119). *)
Definition init (sys : System) : t :=
  {| _current_path := None; _recents := []; text_plain := "";
     text_visible := true; text_cursor := {| anchor := 0; position := 0 |};
     text_font := default_font sys; text_zoom := 1.0%float;
     image := ImageView.hide ImageView.init;
     chk_fit := false; find_edit := ""; find_count := ""; status := "";
     recent_menu := []; dialogs := [];
     filtered := [TextEdit] |}.

End MainWindow.

Import MainWindow.

(** *** Fit-to-window and zoom *)

(** [toggle_fit(state)]: [bool(state)] is true for any state but 0. *)
Definition toggle_fit (state : Z) (w : t) : t :=
  on_image (ImageView.set_fit (negb (state =? 0))) w.

(** [chk_fit.setChecked(b)]: when the box changes, [stateChanged] fires and
    runs [toggle_fit] with [Qt.Checked] (2) or [Qt.Unchecked] (0). *)
Definition setChecked (b : bool) (w : t) : t :=
  if Bool.eqb (chk_fit w) b then w
  else toggle_fit (if b then 2 else 0) (set_chk_fit b w).

(** The user clicking the check box. *)
Definition click_fit (w : t) : t := setChecked (negb (chk_fit w)) w.

Definition zoom_in_factor : float := 1.1%float.
Definition zoom_out_factor : float := (1 / 1.1)%float.

Definition zoom_image (factor : float) (w : t) : t :=
  if negb (ImageView.visible (image w)) then w
  else
    let w := on_image (ImageView.set_fit false) w in
    let w := setChecked false w in
    on_image (fun v =>
      ImageView.set_zoom (Py.max 0.1 (Py.min 6.0 (ImageView.zoom v * factor))) v) w.

Definition reset_zoom (sys : System) (w : t) : t :=
  if ImageView.visible (image w) then
    let w := on_image (ImageView.set_fit false) w in
    let w := setChecked false w in
    on_image (ImageView.set_zoom 1.0%float) w
  else
    set_text_font (fixed_font sys) (set_text_zoom 1.0%float w).

(** *** eventFilter *)

(** Returns whether the event was consumed, and the new state;
    [super().eventFilter] answers [False]. *)
Definition eventFilter (obj : Widget) (ev : QEvent) (w : t) : bool * t :=
  let wheel := match ev_type ev with Wheel => true | OtherEvent => false end in
  let delta := angle_delta_y ev in
  if widget_eqb obj ImageLabel && wheel && negb (delta =? 0) then
    let w := on_image (ImageView.set_fit false) w in
    let step := if 0 <? delta then 1.1%float else (1 / 1.1)%float in
    let w := on_image (fun v =>
      ImageView.set_zoom (Py.max 0.1 (Py.min 6.0 (ImageView.zoom v * step))) v) w in
    (true, w)
  else if widget_eqb obj TextEdit && wheel && control ev && negb (delta =? 0) then
    let step := if 0 <? delta then 1.05%float else (1 / 1.05)%float in
    let w := set_text_zoom (Py.max 0.6 (Py.min 3.0 (text_zoom w * step))) w in
    let font := text_font w in
    let font := setPointSizeF (pointSizeF font * step) font in
    (true, set_text_font font w)
  else (false, w).

(** How Qt delivers an event to a widget: the filters installed on that
    widget see it first.  The window is installed on the widgets of
    [filtered]; for any other widget [eventFilter] is not called.  An event
    no filter consumes is handled by the widget itself, which touches nothing
    of this state. *)
Definition deliver (obj : Widget) (ev : QEvent) (w : t) : t :=
  if existsb (widget_eqb obj) (filtered w) then snd (eventFilter obj ev w) else w.

(** *** clear *)

Definition text_clear (w : t) : t :=
  set_text_cursor {| anchor := 0; position := 0 |} (set_text_plain EmptyString w).

Definition clear (w : t) : t :=
  let w := set_current_path None w in
  let w := text_clear w in
  let w := set_text_visible false w in
  let w := on_image ImageView.hide w in
  set_status EmptyString w.

(** *** load_path *)

(** [list.remove(x)]: drops the first element equal to [x]. *)
Fixpoint list_remove (x : Path) (l : list Path) : list Path :=
  match l with
  | [] => []
  | y :: l' => if String.eqb x y then l' else y :: list_remove x l'
  end.

(** [l[-n:]] for [n > 0]: the last [n] elements. *)
Definition last_n (n : nat) (l : list Path) : list Path :=
  skipn (List.length l - n) l.

(** Lines 205 to 208. *)
Definition touch (path : Path) (recents : list Path) : list Path :=
  let r := if Str.mem path recents then list_remove path recents else recents in
  last_n 10 (r ++ [path]).

Definition refresh_recents (w : t) : t :=
  let head := match _recents w with [] => [Disabled "(empty)"] | _ => [] end in
  set_recent_menu
    (head ++ map OpenRecent (rev (_recents w)) ++ [Separator; ClearRecent]) w.

(** The trailing menu action: [self._recents.clear()]. *)
Definition clear_recents (w : t) : t := set_recents [] w.

(** [text.setPlainText(s)]: new document, cursor at its start. *)
Definition setPlainText (s : string) (w : t) : t :=
  set_text_cursor {| anchor := 0; position := 0 |} (set_text_plain s w).

(** The em dash of the status messages, U+2014, as its UTF-8 bytes. *)
Definition em_dash : string :=
  String (ascii_of_nat 226) (String (ascii_of_nat 128) (String (ascii_of_nat 148) EmptyString)).

(** The body of the [try]: the new state, or the exception raised. *)
Definition load_body (fs : FileSystem) (path : Path) (w : t) : Exception + t :=
  let ext := ext_of path in
  if Str.mem ext IMG_EXTS then
    match pixmap_of fs path with
    | None => inl (RuntimeError "Failed to load image")
    | Some pix =>
        let w := on_image (ImageView.set_image pix) w in
        let w := set_text_visible false w in
        let w := on_image ImageView.show w in
        inr (set_status
               (path ++ " " ++ em_dash ++ " " ++ Py.str_of_Z (pm_width pix) ++ "x"
                  ++ Py.str_of_Z (pm_height pix) ++ " px")%string w)
    end
  else
    match text_of fs path with
    | inl (errno, strerror) => inl (OSError errno strerror path)
    | inr text =>
        let w := setPlainText text w in
        let w := set_text_visible true w in
        let w := on_image ImageView.hide w in
        let lines := if Str.is_empty text then 0%nat
                     else (Str.count text (String Str.newline EmptyString) + 1)%nat in
        inr (set_status (path ++ " " ++ em_dash ++ " " ++ Py.str_of_nat lines ++ " lines")%string w)
    end.

Definition critical (title text : string) (w : t) : t :=
  set_dialogs (dialogs w ++ [(title, text)]) w.

Definition load_path (fs : FileSystem) (path : Path) (w : t) : t :=
  let w := set_current_path (Some path) w in
  match load_body fs path w with
  | inl e => critical "Error" (str_of_exception e) w
  | inr w =>
      let w := set_recents (touch path (_recents w)) w in
      refresh_recents w
  end.

(** Did this [load_path] fail, that is, reach the [except] branch? *)
Definition load_fails (fs : FileSystem) (path : Path) : bool :=
  if Str.mem (ext_of path) IMG_EXTS then
    match pixmap_of fs path with None => true | Some _ => false end
  else
    match text_of fs path with inl _ => true | inr _ => false end.

(** [open_dialog]: the dialog answers with the file chosen, or [None] when
    it was cancelled; only an accepted dialog loads. *)
Definition open_dialog (fs : FileSystem) (chosen : option Path) (w : t) : t :=
  match chosen with
  | Some path => load_path fs path w
  | None => w
  end.

(** *** find_next *)

(** [self.text.find(needle)] with no option flag: forward from the end of
    the selection, and, since [QTextDocument.FindCaseSensitively] is not
    passed, ignoring case.  On a match the cursor selects it; otherwise the
    cursor stays. *)
Definition text_find (needle : string) (w : t) : bool * t :=
  match Str.indexOf false (text_plain w) needle (selectionEnd (text_cursor w)) with
  | Some i => (true, set_text_cursor {| anchor := i; position := i + String.length needle |} w)
  | None => (false, w)
  end.

Definition update_find_count (needle : string) (w : t) : t :=
  if negb (text_visible w) then set_find_count EmptyString w
  else
    let cnt := Str.count (text_plain w) needle in
    set_find_count (Py.str_of_nat cnt ++ " match(es)")%string w.

Definition find_next (w : t) : t :=
  let needle := find_edit w in
  if Str.is_empty needle || negb (text_visible w) then w
  else
    let (found, w) := text_find needle w in
    let w :=
      if found then w
      else snd (text_find needle (set_text_cursor {| anchor := 0; position := 0 |} w)) in
    update_find_count needle w.

(** The text the cursor selects. *)
Definition selectedText (w : t) : string :=
  let c := text_cursor w in
  String.substring (selectionStart c) (selectionEnd c - selectionStart c) (text_plain w).

(** ** Runs of the window *)

(** What the user can do to a shown window. *)
Inductive Action :=
| Load (fs : FileSystem) (path : Path)   (* Open dialog or a Recent entry *)
| Clear
| ClickFit
| ZoomIn
| ZoomOut
| ResetZoom
| Event (obj : Widget) (ev : QEvent)
| TypeFind (s : string)
| FindNext
| ClearRecents.

Definition step (sys : System) (w : t) (a : Action) : t :=
  match a with
  | Load fs path => load_path fs path w
  | Clear => clear w
  | ClickFit => click_fit w
  | ZoomIn => zoom_image zoom_in_factor w
  | ZoomOut => zoom_image zoom_out_factor w
  | ResetZoom => reset_zoom sys w
  | Event obj ev => deliver obj ev w
  | TypeFind s => set_find_edit s w
  | FindNext => find_next w
  | ClearRecents => clear_recents w
  end.

Definition run (sys : System) (w : t) (l : list Action) : t := fold_left (step sys) l w.

Definition reachable (sys : System) (w : t) : Prop :=
  exists l, w = run sys (init sys) l.

(** The handlers called in any order, whether or not an event of the window
    can reach them: an action, [eventFilter] on any object, [zoom_image]
    with any factor. *)
Inductive Call :=
| CallAction (a : Action)
| CallFilter (obj : Widget) (ev : QEvent)
| CallZoomImage (factor : float).

Definition call (sys : System) (w : t) (c : Call) : t :=
  match c with
  | CallAction a => step sys w a
  | CallFilter obj ev => snd (eventFilter obj ev w)
  | CallZoomImage factor => zoom_image factor w
  end.

Definition calls (sys : System) (w : t) (l : list Call) : t := fold_left (call sys) l w.

(** * Definitions used by the statements *)

Open Scope list_scope.

(** A platform whose start font and fixed-width font are both 10 pt. *)
Definition sys_ex : System :=
  {| default_font := {| family := "Sans"; pointSizeF := 10.0%float |};
     fixed_font := {| family := "Monospace"; pointSizeF := 10.0%float |} |}.

(** A file system that decodes nothing and holds [content] in every file
    but [missing.txt], which does not exist. *)
Definition fs_text (content : string) : FileSystem :=
  {| pixmap_of := fun _ => None;
     text_of := fun p =>
       if String.eqb p "missing.txt" then inl (2, "No such file or directory")
       else inr content |}.

(** A file system in which every image decodes to [pix]. *)
Definition fs_image (pix : QPixmap) : FileSystem :=
  {| pixmap_of := fun _ => Some pix; text_of := fun _ => inr EmptyString |}.

(** Are the text pane and the image label shown together? *)
Definition both_visible (w : t) : bool := text_visible w && ImageView.visible (image w).

(** At most ten entries, no path twice. *)
Definition recents_ok (r : list Path) : Prop := (List.length r <= 10)%nat /\ NoDup r.

(** The number of newline characters of a text. *)
Fixpoint newlines (s : string) : nat :=
  match s with
  | EmptyString => 0%nat
  | String c s' => ((if Ascii.eqb c Str.newline then 1 else 0) + newlines s')%nat
  end.

(** N of the status message: newline characters plus one, or 0 for the
    empty text. *)
Definition line_number (text : string) : nat :=
  match text with
  | EmptyString => 0%nat
  | _ => (newlines text + 1)%nat
  end.

(** The texts [a\nb] and [a\nb\n]. *)
Definition text_a_b : string := String "a" (String Str.newline "b").
Definition text_a_b_nl : string := String "a" (String Str.newline (String "b" (String Str.newline EmptyString))).

(** What the claim asks of a failed load, but for the stored path, and what
    the code does to the stored path instead. *)
Definition failed_load_effect (fs : FileSystem) (w : t) (bad : Path) : Prop :=
  let w' := load_path fs bad w in
  load_fails fs bad = true /\
  _current_path w' = Some bad /\
  _current_path w' <> _current_path w /\
  text_visible w' = text_visible w /\
  ImageView.visible (image w') = ImageView.visible (image w) /\
  text_plain w' = text_plain w /\ status w' = status w /\
  _recents w' = _recents w /\
  exists msg, dialogs w' = dialogs w ++ [("Error", msg)] /\ msg <> EmptyString.

(** A wheel event of the given [angleDelta().y()], with or without Control. *)
Definition wheel (delta : Z) (ctrl : bool) : QEvent :=
  {| ev_type := Wheel; angle_delta_y := delta; control := ctrl |}.

(** An image shown with Fit to Window ticked. *)
Definition w_image_fit : t :=
  run sys_ex (init sys_ex)
    [Load (fs_image {| pm_width := 1600; pm_height := 300 |}) "a.png"; ClickFit].

(** [lo <= z <= hi] on floats; false when [z] is a NaN. *)
Definition in_range (lo hi z : float) : bool := ((lo <=? z) && (z <=? hi))%float.

(** Both stored zoom factors are within their intervals. *)
Definition zoom_ok (w : t) : Prop :=
  in_range 0.1 6.0 (ImageView.zoom (image w)) = true /\
  in_range 0.6 3.0 (text_zoom w) = true.

(** One Ctrl+wheel tick over the text pane, up and down. *)
Definition ctrl_wheel_up : Action := Event TextEdit (wheel 120 true).
Definition ctrl_wheel_down : Action := Event TextEdit (wheel (-120) true).

(** The window after [content] was loaded as text and [needle] typed into
    the find box. *)
Definition w_find (content needle : string) : t :=
  run sys_ex (init sys_ex) [Load (fs_text content) "f.txt"; TypeFind needle].

(** The selections (anchor, position) after 1, 2, ..., [n] searches. *)
Definition cursors_of_finds (content needle : string) (n : nat) : list (nat * nat) :=
  map (fun k =>
         let c := text_cursor (run sys_ex (w_find content needle) (repeat FindNext k)) in
         (anchor c, position c))
      (seq 1 n).

(** [x] is not a NaN and carries the sign bit [s]. *)
Definition sf_signed (s : bool) (x : spec_float) : Prop :=
  match x with
  | S754_zero s' | S754_infinity s' | S754_finite s' _ _ => s' = s
  | S754_nan => False
  end.

(** [x] is a zero or a finite number. *)
Definition sf_finite (x : spec_float) : Prop :=
  match x with
  | S754_zero _ | S754_finite _ _ _ => True
  | _ => False
  end.

(** [min(a, b)] and [clamp(x, lo, hi)] as the description of the fit scale
    reads: the smaller of two numbers, and [x] brought back to [lo] or [hi]
    when it lies outside of them. *)
Definition spec_min (a b : float) : float := if (a <=? b)%float then a else b.

Definition spec_clamp (x lo hi : float) : float :=
  if (x <? lo)%float then lo else if (hi <? x)%float then hi else x.

(** The binary64 values of the literals [0.1] and [6.0]. *)
Definition SF_lo : spec_float := S754_finite false 7205759403792794 (-56).
Definition SF_hi : spec_float := S754_finite false 6755399441055744 (-50).

(** The quotient of two ints as Python computes it. *)
Definition fdiv (a b : Z) : float := (Py.float_of_int a / Py.float_of_int b)%float.

(** The text of the error dialog of a failed load: the [RuntimeError] of the
    image branch, or [str] of the [OSError] of the text branch. *)
Definition failure_message (fs : FileSystem) (path : Path) : string :=
  if Str.mem (ext_of path) IMG_EXTS then "Failed to load image"
  else match text_of fs path with
       | inl (errno, strerror) => str_of_exception (OSError errno strerror path)
       | inr _ => EmptyString
       end.

(** The menu as [refresh_recents] builds it from a list that is not empty:
    most recent first, then the separator and the clearing action. *)
Definition menu_of (recents : list Path) : list MenuEntry :=
  map OpenRecent (rev recents) ++ [Separator; ClearRecent].

(** The menu shows no placeholder, and lists the recent paths whenever
    there are any. *)
Definition menu_ok (w : t) : Prop :=
  (forall label, ~ In (Disabled label) (recent_menu w)) /\
  (_recents w = [] \/ recent_menu w = menu_of (_recents w)).

(** Does the character occur in the string? *)
Fixpoint has_char (c : ascii) (s : string) : bool :=
  match s with
  | EmptyString => false
  | String a s' => Ascii.eqb a c || has_char c s'
  end.

(** A shown image label holds a pixmap. *)
Definition shown_has_pixmap (w : t) : Prop :=
  ImageView.visible (image w) = true -> ImageView._pix (image w) <> None.

(** The actions that load, in order, the files of a list. *)
Definition loads_of (files : list (FileSystem * Path)) : list Action :=
  map (fun fp => Load (fst fp) (snd fp)) files.



(** The window filters the text pane only, and the check box agrees with
    the fit flag of the image label. *)
Definition fit_synced (w : t) : Prop :=
  filtered w = [TextEdit] /\ ImageView.fit_to_window (image w) = chk_fit w.

(** * Properties *)

(** ** The embedding on small inputs *)

Example int_of_float_ex :
  Py.int_of_float 2.75%float = Some 2 /\ Py.int_of_float (-2.75)%float = Some (-2) /\
  Py.floor (-2.75)%float = Some (-3) /\ Py.int_of_float (1600 * 0.5)%float = Some 800 /\
  Py.str_of_nat 0 = "0" /\ Py.str_of_nat 1203 = "1203".
Proof. vm_compute. repeat split. Qed.

Example ext_of_ex :
  ext_of "pics/photo.JPG" = "jpg" /\ ext_of "notes" = EmptyString /\
  ext_of ".png" = EmptyString /\ ext_of "a.tar.gz" = "gz" /\ ext_of "dir.d/x." = EmptyString.
Proof. repeat split. Qed.

Example count_ex :
  Str.count "ab ab ab" "ab" = 3%nat /\ Str.count "aaaa" "aa" = 2%nat /\
  Str.count "aaa" EmptyString = 4%nat /\ Str.indexOf false "AB ab" "ab" 1 = Some 3%nat.
Proof. repeat split. Qed.

(** ** Invariants of runs *)

Section RunInvariant.

Variable sys : System.
Variable P : t -> Prop.
Hypothesis P_init : P (init sys).
Hypothesis P_step : forall w a, P w -> P (step sys w a).

Lemma run_from_invariant : forall l w, P w -> P (run sys w l).
Proof.
  induction l as [|a l IH]; intros w Hw; simpl.
  - exact Hw.
  - apply IH, P_step, Hw.
Qed.

Lemma run_invariant : forall l, P (run sys (init sys) l).
Proof. intro l. apply run_from_invariant, P_init. Qed.

End RunInvariant.

Lemma run_app sys w l1 l2 : run sys w (l1 ++ l2) = run sys (run sys w l1) l2.
Proof. unfold run. apply fold_left_app. Qed.

(** What the search leaves alone. *)
Lemma text_find_frame needle w :
  let w' := snd (text_find needle w) in
  text_visible w' = text_visible w /\ image w' = image w /\
  _recents w' = _recents w /\ text_zoom w' = text_zoom w /\
  text_font w' = text_font w /\ filtered w' = filtered w /\
  text_plain w' = text_plain w.
Proof.
  unfold text_find. destruct (Str.indexOf _ _ _ _); simpl; repeat split.
Qed.

Lemma find_next_frame w :
  let w' := find_next w in
  text_visible w' = text_visible w /\ image w' = image w /\
  _recents w' = _recents w /\ text_zoom w' = text_zoom w /\
  text_font w' = text_font w /\ filtered w' = filtered w /\
  text_plain w' = text_plain w.
Proof.
  unfold find_next.
  destruct (Str.is_empty (find_edit w) || negb (text_visible w)) eqn:G;
    [ repeat split | ].
  destruct (text_find (find_edit w) w) as [found w1] eqn:E1.
  pose proof (text_find_frame (find_edit w) w) as F1. rewrite E1 in F1. simpl in F1.
  pose proof (text_find_frame (find_edit w)
                (set_text_cursor {| anchor := 0; position := 0 |} w1)) as F2.
  simpl in F2.
  destruct F1 as (a1 & a2 & a3 & a4 & a5 & a6 & a7).
  destruct F2 as (b1 & b2 & b3 & b4 & b5 & b6 & b7).
  unfold update_find_count.
  destruct found; simpl.
  - rewrite a1. destruct (text_visible w); simpl; repeat split; assumption.
  - rewrite b1, a1.
    destruct (text_visible w); simpl; repeat split; congruence.
Qed.

(** The window never filters anything but the text pane. *)
Lemma filtered_step sys w a : filtered (step sys w a) = filtered w.
Proof.
  destruct a; cbn [step]; try reflexivity.
  - unfold load_path. destruct (load_body fs path _) as [e|w'] eqn:E; simpl.
    + reflexivity.
    + unfold load_body in E.
      destruct (Str.mem _ _).
      * destruct (pixmap_of fs path); inversion E; reflexivity.
      * destruct (text_of fs path) as [[? ?]|?]; inversion E; reflexivity.
  - unfold click_fit, setChecked. destruct (Bool.eqb _ _); reflexivity.
  - unfold zoom_image, setChecked. destruct (negb _); [reflexivity|]. simpl.
    destruct (Bool.eqb _ _); reflexivity.
  - unfold zoom_image, setChecked. destruct (negb _); [reflexivity|]. simpl.
    destruct (Bool.eqb _ _); reflexivity.
  - unfold reset_zoom, setChecked. destruct (ImageView.visible _); [|reflexivity].
    simpl. destruct (Bool.eqb _ _); reflexivity.
  - unfold deliver. destruct (existsb _ _); [|reflexivity].
    unfold eventFilter.
    destruct (_ && _ && _); [reflexivity|]. destruct (_ && _ && _ && _); reflexivity.
  - apply find_next_frame.
Qed.

Lemma filtered_run sys l : filtered (run sys (init sys) l) = [TextEdit].
Proof.
  apply (run_invariant sys (fun w => filtered w = [TextEdit])).
  - reflexivity.
  - intros w a H. rewrite filtered_step. exact H.
Qed.

(** ** The two panes are never shown together *)

Lemma both_visible_step sys w a :
  both_visible w = false -> both_visible (step sys w a) = false.
Proof.
  unfold both_visible. intro H.
  destruct a; cbn [step]; try exact H; try reflexivity.
  - unfold load_path. destruct (load_body fs path _) as [e|w'] eqn:E; simpl.
    + exact H.
    + unfold load_body in E.
      destruct (Str.mem _ _).
      * destruct (pixmap_of fs path); inversion E; reflexivity.
      * destruct (text_of fs path) as [[? ?]|?]; inversion E; reflexivity.
  - unfold click_fit, setChecked. destruct (Bool.eqb _ _); exact H.
  - unfold zoom_image, setChecked. destruct (negb _); [exact H|]. simpl.
    destruct (Bool.eqb _ _); exact H.
  - unfold zoom_image, setChecked. destruct (negb _); [exact H|]. simpl.
    destruct (Bool.eqb _ _); exact H.
  - unfold reset_zoom, setChecked. destruct (ImageView.visible _) eqn:V; [|simpl; rewrite V; exact H].
    simpl. destruct (Bool.eqb _ _); simpl; rewrite V; exact H.
  - unfold deliver. destruct (existsb _ _); [|exact H].
    unfold eventFilter.
    destruct (_ && _ && _); [exact H|]. destruct (_ && _ && _ && _); exact H.
  - destruct (find_next_frame w) as (e1 & e2 & _). rewrite e1, e2. exact H.
Qed.

(** C4: in every state reached from the initial window by any sequence of
    actions (loads that succeed or fail, Clear, and every other action of
    the window), the image view and the text view are not both visible. *)
Theorem C4_views_never_both_visible :
  forall (sys : System) (l : list Action),
    let w := run sys (init sys) l in
    text_visible w && ImageView.visible (image w) = false.
Proof.
  intros sys l.
  apply (run_invariant sys (fun w => both_visible w = false)).
  - reflexivity.
  - intros w a. apply both_visible_step.
Qed.

(** ** The recent list *)

Lemma mem_In x l : Str.mem x l = true <-> In x l.
Proof.
  induction l as [|y l IH]; simpl.
  - split; [discriminate | tauto].
  - rewrite orb_true_iff, IH, String.eqb_eq. split; intros [H|H]; auto.
Qed.

Lemma mem_not_In x l : Str.mem x l = false <-> ~ In x l.
Proof.
  rewrite <- mem_In. destruct (Str.mem x l); split; congruence.
Qed.

(** Removing the first occurrence of a member splits the list around it. *)
Lemma list_remove_split p l :
  In p l ->
  exists l1 l2, l = l1 ++ p :: l2 /\ list_remove p l = l1 ++ l2 /\ ~ In p l1.
Proof.
  induction l as [|y l IH]; simpl; [tauto|].
  intro H. destruct (String.eqb p y) eqn:E.
  - apply String.eqb_eq in E. subst y. exists [], l. simpl. auto.
  - apply String.eqb_neq in E.
    destruct H as [H|H]; [congruence|].
    destruct (IH H) as (l1 & l2 & e1 & e2 & n).
    exists (y :: l1), l2. simpl. rewrite e2. subst l. repeat split.
    intros [F|F]; [congruence | tauto].
Qed.

Lemma last_n_all n l : (List.length l <= n)%nat -> last_n n l = l.
Proof.
  intro H. unfold last_n. replace (List.length l - n)%nat with 0%nat by lia. reflexivity.
Qed.

Lemma last_n_length n l : List.length (last_n n l) = Nat.min n (List.length l).
Proof. unfold last_n. rewrite length_skipn. lia. Qed.

Lemma NoDup_skipn (k : nat) (l : list Path) : NoDup l -> NoDup (skipn k l).
Proof.
  revert l. induction k as [|k IH]; intros l H; simpl; [exact H|].
  destruct l as [|x l]; [constructor|]. apply IH. inversion H; assumption.
Qed.

Lemma NoDup_snoc (p : Path) l : NoDup l -> ~ In p l -> NoDup (l ++ [p]).
Proof.
  intros H N. apply NoDup_app; [exact H | repeat constructor; simpl; tauto |].
  intros x Hx [E|[]]. subst x. contradiction.
Qed.

(** The list before the cut to ten entries: the path, moved or added, is
    last, and nothing is doubled. *)
Lemma touch_shape p r :
  NoDup r ->
  exists r0, touch p r = last_n 10 (r0 ++ [p]) /\ NoDup (r0 ++ [p]) /\
             (List.length r0 <= List.length r)%nat /\
             (In p r -> exists r1 r2, r = r1 ++ p :: r2 /\ r0 = r1 ++ r2) /\
             (~ In p r -> r0 = r).
Proof.
  intro ND. unfold touch. destruct (Str.mem p r) eqn:M.
  - apply mem_In in M. destruct (list_remove_split p r M) as (r1 & r2 & e1 & e2 & n).
    exists (list_remove p r). rewrite e2. split; [reflexivity|].
    subst r. apply NoDup_remove in ND. destruct ND as [ND N].
    repeat split.
    + apply NoDup_snoc; assumption.
    + rewrite !length_app. simpl. lia.
    + intros _. exists r1, r2. auto.
    + intro F. contradiction.
  - apply mem_not_In in M. exists r. repeat split; auto.
    + apply NoDup_snoc; assumption.
    + intro F. contradiction.
Qed.

Lemma touch_ok p r : recents_ok r -> recents_ok (touch p r).
Proof.
  intros [L ND]. destruct (touch_shape p r ND) as (r0 & e & nd & len & _).
  rewrite e. split.
  - rewrite last_n_length. lia.
  - unfold last_n. apply NoDup_skipn, nd.
Qed.

(** A load that succeeds passes the path through [touch]. *)
Lemma load_path_recents fs p w :
  load_fails fs p = false ->
  _recents (load_path fs p w) = touch p (_recents w).
Proof.
  unfold load_fails, load_path, load_body. intro H.
  destruct (Str.mem (ext_of p) IMG_EXTS).
  - destruct (pixmap_of fs p); [reflexivity | discriminate].
  - destruct (text_of fs p) as [[? ?]|?]; [discriminate | reflexivity].
Qed.

Lemma load_path_recents_fail fs p w :
  load_fails fs p = true ->
  _recents (load_path fs p w) = _recents w.
Proof.
  unfold load_fails, load_path, load_body. intro H.
  destruct (Str.mem (ext_of p) IMG_EXTS).
  - destruct (pixmap_of fs p); [discriminate | reflexivity].
  - destruct (text_of fs p) as [[? ?]|?]; [reflexivity | discriminate].
Qed.

Lemma recents_step sys w a : recents_ok (_recents w) -> recents_ok (_recents (step sys w a)).
Proof.
  intro H. destruct a; cbn [step]; try exact H.
  - destruct (load_fails fs path) eqn:F.
    + rewrite load_path_recents_fail by exact F. exact H.
    + rewrite load_path_recents by exact F. apply touch_ok, H.
  - unfold click_fit, setChecked. destruct (Bool.eqb _ _); exact H.
  - unfold zoom_image, setChecked. destruct (negb _); [exact H|]. simpl.
    destruct (Bool.eqb _ _); exact H.
  - unfold zoom_image, setChecked. destruct (negb _); [exact H|]. simpl.
    destruct (Bool.eqb _ _); exact H.
  - unfold reset_zoom, setChecked. destruct (ImageView.visible _); [|exact H].
    simpl. destruct (Bool.eqb _ _); exact H.
  - unfold deliver. destruct (existsb _ _); [|exact H].
    unfold eventFilter.
    destruct (_ && _ && _); [exact H|]. destruct (_ && _ && _ && _); exact H.
  - destruct (find_next_frame w) as (_ & _ & e & _). rewrite e. exact H.
  - split; [simpl; lia | constructor].
Qed.

Lemma last_snoc (l : list Path) (p d : Path) : last (l ++ [p]) d = p.
Proof. apply last_last. Qed.

Lemma last_skipn (k : nat) (l : list Path) (d : Path) :
  (k < List.length l)%nat -> last (skipn k l) d = last l d.
Proof.
  revert l. induction k as [|k IH]; intros l H; [reflexivity|].
  destruct l as [|x l]; simpl in *; [lia|].
  rewrite IH by lia. destruct l; [simpl in H; lia | reflexivity].
Qed.

(** C5: the recent list of any reachable window holds at most 10 paths, all
    distinct; a load that succeeds leaves its path last; a path already in
    the list is moved to the end, not doubled; a new path is appended, and
    when the list was full its oldest (first) entry is dropped.  Loading A,
    B, A gives [B, A]; loading eleven distinct paths keeps the last ten. *)
Theorem C5_recent_list :
  forall (sys : System) (l : list Action),
    let w := run sys (init sys) l in
    let r := _recents w in
    ((List.length r <= 10)%nat /\ NoDup r) /\
    (forall fs p, load_fails fs p = false ->
       let r' := _recents (load_path fs p w) in
       last r' EmptyString = p /\
       (In p r -> exists r1 r2, r = r1 ++ p :: r2 /\ r' = r1 ++ r2 ++ [p]) /\
       (~ In p r -> (List.length r < 10)%nat -> r' = r ++ [p]) /\
       (~ In p r -> List.length r = 10%nat -> r' = tl r ++ [p])) /\
    _recents (run sys (init sys)
       [Load (fs_text "x") "A"; Load (fs_text "x") "B"; Load (fs_text "x") "A"])
      = ["B"; "A"] /\
    _recents (run sys (init sys)
       (map (Load (fs_text "x"))
          ["p1"; "p2"; "p3"; "p4"; "p5"; "p6"; "p7"; "p8"; "p9"; "p10"; "p11"]))
      = ["p2"; "p3"; "p4"; "p5"; "p6"; "p7"; "p8"; "p9"; "p10"; "p11"].
Proof.
  intros sys l w r.
  assert (OK : recents_ok r).
  { apply (run_invariant sys (fun w => recents_ok (_recents w))).
    - split; [simpl; lia | constructor].
    - intros w0 a. apply recents_step. }
  split; [exact OK|]. split; [|split; reflexivity].
  intros fs p F r'.
  assert (E : r' = touch p r) by (apply load_path_recents, F).
  clearbody r' r. destruct OK as [L ND].
  destruct (touch_shape p r ND) as (r0 & e & nd & len & Hin & Hout).
  rewrite <- E in e. repeat split.
  - rewrite e. unfold last_n. rewrite last_skipn, last_snoc; [reflexivity|].
    rewrite length_app. simpl. lia.
  - intro I. destruct (Hin I) as (r1 & r2 & e1 & e2).
    exists r1, r2. split; [exact e1|].
    rewrite e, e2, last_n_all, app_assoc; [reflexivity|].
    subst r r0. rewrite !length_app in *. simpl in *. lia.
  - intros N Lt. rewrite e, (Hout N), last_n_all; [reflexivity|].
    rewrite length_app. simpl. lia.
  - intros N Eq. rewrite e, (Hout N). unfold last_n.
    rewrite length_app. simpl. replace (List.length r + 1 - 10)%nat with 1%nat by lia.
    destruct r as [|x r1]; [simpl in Eq; lia | reflexivity].
Qed.

(** ** The line count of the status message *)

(** [s.count(c)] for a one-character needle counts the characters equal
    to it. *)
Lemma count_newline s : Str.count s (String Str.newline EmptyString) = newlines s.
Proof.
  unfold Str.count. induction s as [|a s IH]; [reflexivity|].
  cbn [Str.count_skip Str.starts_with newlines String.length Nat.sub].
  rewrite Ascii.eqb_sym.
  destruct (Ascii.eqb a Str.newline); cbn [andb]; rewrite IH.
  - destruct s; reflexivity.
  - reflexivity.
Qed.

Example em_dash_utf8 : em_dash = "—".
Proof. reflexivity. Qed.

(** C9: when a path that is not classified as an image is read without
    error, the status message is the path, an em dash between spaces, N and
    the word "lines", where N is the number of newline characters plus one
    for a non-empty text and 0 for the empty text. *)
Theorem C9_text_status_line_count :
  forall (fs : FileSystem) (path : Path) (w : t) (text : string),
    Str.mem (ext_of path) IMG_EXTS = false ->
    text_of fs path = inr text ->
    status (load_path fs path w)
    = (path ++ " " ++ em_dash ++ " " ++ Py.str_of_nat (line_number text) ++ " lines")%string.
Proof.
  intros fs path w text Himg Hread.
  unfold load_path, load_body. rewrite Himg, Hread. cbn.
  rewrite count_newline. destruct text; reflexivity.
Qed.

(** The three texts of the claim: 0, 2 and 3 lines. *)
Lemma C9_witness :
  status (load_path (fs_text EmptyString) "f.txt" (init sys_ex)) = "f.txt — 0 lines" /\
  status (load_path (fs_text text_a_b) "f.txt" (init sys_ex)) = "f.txt — 2 lines" /\
  status (load_path (fs_text text_a_b_nl) "f.txt" (init sys_ex)) = "f.txt — 3 lines".
Proof.
  split; [|split].
  - rewrite (C9_text_status_line_count (fs_text EmptyString) "f.txt" (init sys_ex)
               EmptyString eq_refl eq_refl). reflexivity.
  - rewrite (C9_text_status_line_count (fs_text text_a_b) "f.txt" (init sys_ex)
               text_a_b eq_refl eq_refl). reflexivity.
  - rewrite (C9_text_status_line_count (fs_text text_a_b_nl) "f.txt" (init sys_ex)
               text_a_b_nl eq_refl eq_refl). reflexivity.
Defined.

(** ** A failed load *)

Lemma str_of_exception_OSError_nonempty errno strerror filename :
  str_of_exception (OSError errno strerror filename) <> EmptyString.
Proof. simpl. discriminate. Qed.

(** What a failed load does: it stores the path it was given, shows one
    modal error with a non-empty text, and changes nothing else. *)
Lemma load_path_failure fs path w :
  load_fails fs path = true ->
  exists msg, msg <> EmptyString /\
    load_path fs path w = critical "Error" msg (set_current_path (Some path) w).
Proof.
  unfold load_fails, load_path, load_body. intro H.
  destruct (Str.mem (ext_of path) IMG_EXTS).
  - destruct (pixmap_of fs path); [discriminate|].
    exists "Failed to load image". split; [discriminate | reflexivity].
  - destruct (text_of fs path) as [[errno strerror]|?]; [|discriminate].
    exists (str_of_exception (OSError errno strerror path)).
    split; [apply str_of_exception_OSError_nonempty | reflexivity].
Qed.

(** C1 (the code departs from the claim): with [a.txt] shown, loading the
    undecodable [bad.png] or the unreadable [missing.txt] fails; the views,
    the text, the status and the recent list stay as they were and one error
    dialog with a non-empty text is shown, but the stored current path is
    overwritten with the path that failed to load. *)
Theorem C1_failed_load_overwrites_current_path :
  let fs := fs_text "hello" in
  let w := load_path fs "a.txt" (init sys_ex) in
  _current_path w = Some "a.txt" /\
  failed_load_effect fs w "bad.png" /\
  failed_load_effect fs w "missing.txt".
Proof.
  cbv zeta. split; [vm_compute; reflexivity|]. split.
  - unfold failed_load_effect. cbv zeta.
    split; [vm_compute; reflexivity|]. split; [vm_compute; reflexivity|].
    split; [vm_compute; discriminate|]. split; [vm_compute; reflexivity|].
    split; [vm_compute; reflexivity|]. split; [vm_compute; reflexivity|].
    split; [vm_compute; reflexivity|]. split; [vm_compute; reflexivity|].
    exists "Failed to load image". split; [vm_compute; reflexivity | discriminate].
  - unfold failed_load_effect. cbv zeta.
    split; [vm_compute; reflexivity|]. split; [vm_compute; reflexivity|].
    split; [vm_compute; discriminate|]. split; [vm_compute; reflexivity|].
    split; [vm_compute; reflexivity|]. split; [vm_compute; reflexivity|].
    split; [vm_compute; reflexivity|]. split; [vm_compute; reflexivity|].
    exists "[Errno 2] No such file or directory: 'missing.txt'".
    split; [vm_compute; reflexivity | discriminate].
Qed.

(** ** Wheel events over the image *)

(** C2 (the code departs from the claim): the branch of [eventFilter] for
    the image label exists, and called by hand it turns fit-to-window off and
    multiplies the zoom by 1.1; but the window is installed as event filter
    on the text pane only, so in every reachable state an event delivered to
    the image label changes nothing: with the image visible and fit-to-window
    on, a wheel tick leaves fit-to-window on and the zoom factor at 1.0. *)
Theorem C2_wheel_over_image_changes_nothing :
  (forall (sys : System) (l : list Action) (ev : QEvent),
     let w := run sys (init sys) l in deliver ImageLabel ev w = w) /\
  ImageView.visible (image w_image_fit) = true /\
  ImageView.fit_to_window (image w_image_fit) = true /\
  ImageView.zoom (image w_image_fit) = 1.0%float /\
  deliver ImageLabel (wheel 120 false) w_image_fit = w_image_fit /\
  deliver ImageLabel (wheel (-120) false) w_image_fit = w_image_fit /\
  (let w' := snd (eventFilter ImageLabel (wheel 120 false) w_image_fit) in
   ImageView.fit_to_window (image w') = false /\
   ImageView.zoom (image w') = (1.0 * 1.1)%float).
Proof.
  split.
  - intros sys l ev w. unfold deliver. unfold w. rewrite filtered_run. reflexivity.
  - repeat split.
Qed.

(** ** Loading an image while fit-to-window is on *)

Lemma set_image_effect pix v :
  ImageView.zoom (ImageView.set_image pix v) = 1.0%float /\
  ImageView.fit_to_window (ImageView.set_image pix v) = ImageView.fit_to_window v /\
  ImageView._pix (ImageView.set_image pix v) = Some pix.
Proof. repeat split. Qed.

(** C10: [set_image] resets the zoom to 1.0 and keeps [fit_to_window]; so
    after an image is loaded while fit-to-window is on, the flag is still on,
    the paint uses the fit scale whatever the stored zoom is, and the stored
    zoom 1.0 is the scale once fit-to-window is switched off. *)
Theorem C10_load_image_keeps_fit_to_window :
  forall (fs : FileSystem) (path : Path) (w : t) (pix : QPixmap) (g : Geometry),
    Str.mem (ext_of path) IMG_EXTS = true ->
    pixmap_of fs path = Some pix ->
    ImageView.fit_to_window (image w) = true ->
    0 < pm_width pix -> 0 < pm_height pix ->
    let v' := image (load_path fs path w) in
    ImageView._pix v' = Some pix /\
    ImageView.zoom v' = 1.0%float /\
    ImageView.fit_to_window v' = true /\
    ImageView.visible v' = true /\
    ImageView.scale_of v' pix g =
      Some (Py.max 0.1 (Py.min 6.0
              (Py.min (Py.float_of_int (avail_width g) / Py.float_of_int (pm_width pix))
                      (Py.float_of_int (avail_height g) / Py.float_of_int (pm_height pix))))) /\
    (forall z, ImageView.paintEvent (ImageView.set_zoom z v') g = ImageView.paintEvent v' g) /\
    ImageView.scale_of (image (toggle_fit 0 (load_path fs path w))) pix g = Some 1.0%float.
Proof.
  intros fs path w pix g Himg Hpix Hfit Hw Hh v'.
  assert (E : v' = ImageView.show (ImageView.set_image pix (image w))).
  { unfold v', load_path, load_body. rewrite Himg, Hpix. reflexivity. }
  assert (T : image (toggle_fit 0 (load_path fs path w)) = ImageView.set_fit false v').
  { reflexivity. }
  rewrite T. clearbody v'. subst v'.
  apply Z.ltb_lt in Hw, Hh.
  assert (Nw : (pm_width pix =? 0) = false) by (apply Z.eqb_neq; apply Z.ltb_lt in Hw; lia).
  assert (Nh : (pm_height pix =? 0) = false) by (apply Z.eqb_neq; apply Z.ltb_lt in Hh; lia).
  repeat split.
  - exact Hfit.
  - unfold ImageView.scale_of, Py.true_div. simpl. rewrite Hfit, Hw, Hh, Nw, Nh. reflexivity.
  - intro z. unfold ImageView.paintEvent, ImageView.scale_of. simpl.
    rewrite Hfit, Hw, Hh. reflexivity.
Qed.

Lemma C10_witness :
  let v' := image (load_path (fs_image {| pm_width := 1600; pm_height := 300 |}) "b.png"
                     w_image_fit) in
  ImageView.fit_to_window v' = true /\ ImageView.zoom v' = 1.0%float /\
  ImageView.scale_of v' {| pm_width := 1600; pm_height := 300 |}
    {| width := 800; height := 600; avail_width := 800; avail_height := 600 |}
  = Some 0.5%float.
Proof.
  pose proof (C10_load_image_keeps_fit_to_window
                (fs_image {| pm_width := 1600; pm_height := 300 |}) "b.png" w_image_fit
                {| pm_width := 1600; pm_height := 300 |}
                {| width := 800; height := 600; avail_width := 800; avail_height := 600 |}
                eq_refl eq_refl eq_refl eq_refl eq_refl) as H.
  cbv zeta in *. destruct H as (_ & Hz & Hf & _ & Hs & _).
  split; [exact Hf|]. split; [exact Hz|]. rewrite Hs. vm_compute. reflexivity.
Defined.

(** ** Floats: comparisons and the clamp *)

Lemma ltb_leb (x y : float) : (x <? y)%float = true -> (x <=? y)%float = true.
Proof.
  rewrite ltb_spec, leb_spec. unfold SFltb, SFleb.
  destruct (SFcompare (Prim2SF x) (Prim2SF y)) as [[]|]; congruence.
Qed.

(** [max(lo, min(hi, x))] lies in [[lo, hi]] whatever [x] is, NaN included. *)
Lemma clamp_in_range (lo hi x : float) :
  (lo <=? lo)%float = true -> (hi <=? hi)%float = true -> (lo <=? hi)%float = true ->
  in_range lo hi (Py.max lo (Py.min hi x)) = true.
Proof.
  intros Hlo Hhi Hlh. unfold in_range, Py.max, Py.min.
  destruct (x <? hi)%float eqn:A.
  - destruct (lo <? x)%float eqn:B.
    + rewrite (ltb_leb _ _ A), (ltb_leb _ _ B). reflexivity.
    + rewrite Hlo, Hlh. reflexivity.
  - destruct (lo <? hi)%float eqn:B.
    + rewrite Hlh, Hhi. reflexivity.
    + rewrite Hlo, Hlh. reflexivity.
Qed.

Lemma image_clamp x : in_range 0.1 6.0 (Py.max 0.1 (Py.min 6.0 x)) = true.
Proof. apply clamp_in_range; reflexivity. Qed.

Lemma text_clamp x : in_range 0.6 3.0 (Py.max 0.6 (Py.min 3.0 x)) = true.
Proof. apply clamp_in_range; reflexivity. Qed.

(** ** The stored zoom factors stay in their intervals *)

Lemma zoom_ok_zoom_image f w : zoom_ok w -> zoom_ok (zoom_image f w).
Proof.
  intros [Hi Ht]. unfold zoom_image, setChecked.
  destruct (negb _); [split; assumption|]. simpl.
  destruct (Bool.eqb _ _); simpl; (split; [apply image_clamp | exact Ht]).
Qed.

Lemma zoom_ok_step sys w a : zoom_ok w -> zoom_ok (step sys w a).
Proof.
  intros [Hi Ht]. destruct a; cbn [step]; try (split; assumption).
  - unfold load_path. destruct (load_body fs path _) as [e|w'] eqn:E; simpl.
    + split; assumption.
    + unfold load_body in E.
      destruct (Str.mem _ _).
      * destruct (pixmap_of fs path); inversion E; split; [reflexivity | exact Ht].
      * destruct (text_of fs path) as [[? ?]|?]; inversion E; split; assumption.
  - unfold click_fit, setChecked. destruct (Bool.eqb _ _); split; assumption.
  - apply zoom_ok_zoom_image. split; assumption.
  - apply zoom_ok_zoom_image. split; assumption.
  - unfold reset_zoom, setChecked. destruct (ImageView.visible _).
    + simpl. destruct (Bool.eqb _ _); (split; [reflexivity | exact Ht]).
    + split; [exact Hi | reflexivity].
  - unfold deliver. destruct (existsb _ _); [|split; assumption].
    unfold eventFilter.
    destruct (_ && _ && _); [split; [apply image_clamp | exact Ht]|].
    destruct (_ && _ && _ && _); [split; [exact Hi | apply text_clamp] | split; assumption].
  - destruct (find_next_frame w) as (_ & e2 & _ & e4 & _). unfold zoom_ok.
    rewrite e2, e4. split; assumption.
Qed.

(** The filter called by hand on any object keeps the factors in range. *)
Lemma eventFilter_zoom_ok obj ev w : zoom_ok w -> zoom_ok (snd (eventFilter obj ev w)).
Proof.
  intros [Hi Ht]. unfold eventFilter.
  destruct (_ && _ && _); [split; [apply image_clamp | exact Ht]|].
  destruct (_ && _ && _ && _); [split; [exact Hi | apply text_clamp] | split; assumption].
Qed.

Lemma zoom_ok_calls sys l : forall w, zoom_ok w -> zoom_ok (calls sys w l).
Proof.
  induction l as [|c l IH]; intros w H; [exact H|].
  apply IH. destruct c; cbn [call].
  - apply zoom_ok_step, H.
  - apply eventFilter_zoom_ok, H.
  - apply zoom_ok_zoom_image, H.
Qed.

(** C8: after any sequence of handler calls from the initial window (the
    wheel branches of [eventFilter] on the image label and on the text pane,
    [zoom_image] with any factor, Zoom +, Zoom -, 100%, and every other
    action, in any order and number), the stored image zoom factor is within
    [0.1, 6.0] and the stored text zoom factor within [0.6, 3.0]. *)
Theorem C8_stored_zoom_factors_in_range :
  forall (sys : System) (l : list Call),
    let w := calls sys (init sys) l in
    ((0.1 <=? ImageView.zoom (image w)) && (ImageView.zoom (image w) <=? 6.0))%float = true /\
    ((0.6 <=? text_zoom w) && (text_zoom w <=? 3.0))%float = true.
Proof.
  intros sys l. apply (zoom_ok_calls sys l (init sys)). split; reflexivity.
Qed.

(** ** Font zoom of the text pane *)

(** One Ctrl+wheel tick over the text pane multiplies the point size of the
    font by the step, with no clamp, as long as the product is positive. *)
Lemma ctrl_wheel_scales_font (sys : System) (l : list Action) (delta : Z) :
  let w := run sys (init sys) l in
  let factor := if 0 <? delta then 1.05%float else (1 / 1.05)%float in
  delta <> 0 ->
  (pointSizeF (text_font w) * factor <=? 0)%float = false ->
  pointSizeF (text_font (deliver TextEdit (wheel delta true) w))
  = (pointSizeF (text_font w) * factor)%float.
Proof.
  intros w factor Hd Hpos.
  assert (F : filtered w = [TextEdit]) by apply filtered_run.
  clearbody w. apply Z.eqb_neq in Hd.
  unfold deliver. rewrite F. cbn [existsb widget_eqb orb].
  unfold eventFilter, wheel. cbn [ev_type angle_delta_y control widget_eqb andb].
  rewrite Hd. cbn [negb snd]. fold factor.
  cbn [text_font set_text_font set_text_zoom]. unfold setPointSizeF.
  rewrite Hpos. reflexivity.
Qed.

(** C3 (the code departs from the claim): each Ctrl+wheel tick scales the
    font point size by 1.05 or 1/1.05, and the 100% action with the text
    pane shown restores the fixed-width system font and factor 1.0; but only
    the number [text_zoom] is clamped, the font is not.  From the 10 pt
    start font, 23 ticks up leave [text_zoom] at 3.0 and the font above
    30 pt (3.0 times the base), and 11 ticks down leave [text_zoom] at 0.6
    and the font below 6 pt (0.6 times the base). *)
Theorem C3_font_size_not_clamped :
  let base := pointSizeF (default_font sys_ex) in
  let w_up := run sys_ex (init sys_ex) (repeat ctrl_wheel_up 23) in
  let w_down := run sys_ex (init sys_ex) (repeat ctrl_wheel_down 11) in
  text_zoom w_up = 3.0%float /\
  (3.0 * base <? pointSizeF (text_font w_up))%float = true /\
  text_zoom w_down = 0.6%float /\
  (pointSizeF (text_font w_down) <? 0.6 * base)%float = true /\
  pointSizeF (text_font (step sys_ex (init sys_ex) ctrl_wheel_up)) = (base * 1.05)%float /\
  pointSizeF (text_font (step sys_ex (init sys_ex) ctrl_wheel_down)) = (base * (1 / 1.05))%float /\
  text_font (reset_zoom sys_ex w_up) = fixed_font sys_ex /\
  text_zoom (reset_zoom sys_ex w_up) = 1.0%float.
Proof. vm_compute. repeat split. Qed.

(** ** Find *)

Lemma find_next_noop w :
  Str.is_empty (find_edit w) = true \/ text_visible w = false -> find_next w = w.
Proof.
  intros [H|H]; unfold find_next; rewrite H; [reflexivity|].
  rewrite orb_true_r. reflexivity.
Qed.

(** The label shows the count over the whole text, wherever the cursor is. *)
Lemma find_next_count w :
  Str.is_empty (find_edit w) = false -> text_visible w = true ->
  find_count (find_next w)
  = (Py.str_of_nat (Str.count (text_plain w) (find_edit w)) ++ " match(es)")%string.
Proof.
  intros Hn Hv. unfold find_next. rewrite Hn, Hv. simpl.
  destruct (text_find (find_edit w) w) as [found w1] eqn:E1.
  pose proof (text_find_frame (find_edit w) w) as F1. rewrite E1 in F1. simpl in F1.
  pose proof (text_find_frame (find_edit w)
                (set_text_cursor {| anchor := 0; position := 0 |} w1)) as F2.
  simpl in F2.
  destruct F1 as (a1 & _ & _ & _ & _ & _ & a7).
  destruct F2 as (b1 & _ & _ & _ & _ & _ & b7).
  unfold update_find_count. destruct found.
  - rewrite a1, Hv, a7. reflexivity.
  - rewrite b1, a1, Hv, b7, a7. reflexivity.
Qed.

(** Repeated search cycles through the three matches and wraps. *)
Example find_next_cycles :
  cursors_of_finds "ab ab ab" "ab" 5 = [(0, 2); (3, 5); (6, 8); (0, 2); (3, 5)]%nat /\
  find_count (find_next (w_find "ab ab ab" "ab")) = "3 match(es)".
Proof. vm_compute. split; reflexivity. Qed.

(** C6 (the code departs from the claim): the search is [QPlainTextEdit.find]
    without [FindCaseSensitively], which ignores case, while the count is
    [str.count], which does not.  On the text "AB ab" with needle "ab" the
    first search selects "AB" at 0..2, not the only case-sensitive
    occurrence at 3..5; repeated searches alternate between the two
    selections while the label reads "1 match(es)". *)
Theorem C6_find_ignores_case :
  let w0 := w_find "AB ab" "ab" in
  let w1 := find_next w0 in
  text_visible w0 = true /\ text_cursor w0 = {| anchor := 0; position := 0 |} /\
  text_cursor w1 = {| anchor := 0; position := 2 |} /\
  selectedText w1 = "AB" /\
  Str.indexOf true "AB ab" "ab" 0 = Some 3%nat /\
  find_count w1 = "1 match(es)" /\
  cursors_of_finds "AB ab" "ab" 4 = [(0, 2); (3, 5); (0, 2); (3, 5)]%nat.
Proof. vm_compute. repeat split. Qed.

(** ** Binary64: facts about the specification of the primitive floats

    The operations on [float] are specified by [FloatAxioms] through
    [Prim2SF]; the lemmas below read signs, NaN-freedom and finiteness off
    those specifications. *)

Lemma digits2_size p : digits2_pos p = Pos.size p.
Proof. induction p; simpl; congruence. Qed.

Lemma Zdigits2_log2 m : 0 < m -> Zdigits2 m = Z.log2 m + 1.
Proof.
  destruct m as [|p|p]; try lia. intros _. simpl. rewrite digits2_size.
  destruct p; simpl; lia.
Qed.

Lemma Zdigits2_nonneg m : 0 <= Zdigits2 m.
Proof. destruct m; simpl; lia. Qed.

Lemma Zdigits2_mono a b : 0 <= a <= b -> Zdigits2 a <= Zdigits2 b.
Proof.
  intros [Ha Hab]. destruct (Z.eq_dec a 0) as [->|Na].
  - apply Zdigits2_nonneg.
  - rewrite !Zdigits2_log2 by lia. pose proof (Z.log2_le_mono a b Hab). lia.
Qed.

Lemma Zdigits2_succ a : 0 <= a -> Zdigits2 (a + 1) <= Zdigits2 a + 1.
Proof.
  intro Ha. destruct (Z.eq_dec a 0) as [->|Na]; [simpl; lia|].
  rewrite !Zdigits2_log2 by lia. pose proof (Z.log2_succ_le a). unfold Z.succ in *. lia.
Qed.

Lemma Zdigits2_mul a b : 0 < a -> 0 < b -> Zdigits2 (a * b) <= Zdigits2 a + Zdigits2 b.
Proof.
  intros Ha Hb. rewrite !Zdigits2_log2 by lia.
  pose proof (Z.log2_mul_above a b). lia.
Qed.

Lemma digits2_iter_xO p k : Zpos (digits2_pos (Pos.iter xO p k)) = Zpos (digits2_pos p) + Zpos k.
Proof.
  induction k using Pos.peano_ind.
  - simpl. lia.
  - rewrite Pos.iter_succ. simpl. rewrite Pos2Z.inj_succ. lia.
Qed.

(** Shifting a non-negative mantissa right keeps it non-negative and
    does not make it larger. *)
Lemma shr_1_bounds x : 0 <= shr_m x -> 0 <= shr_m (shr_1 x) <= shr_m x.
Proof.
  destruct x as [m r s]. simpl. intro H.
  destruct m as [|p|p]; [simpl; lia| |lia].
  destruct p; simpl; lia.
Qed.

Lemma iter_shr_1_bounds k : forall x, 0 <= shr_m x -> 0 <= shr_m (iter_pos shr_1 k x) <= shr_m x.
Proof.
  induction k; intros x H; simpl.
  - pose proof (shr_1_bounds x H). pose proof (IHk (shr_1 x) ltac:(lia)).
    pose proof (IHk (iter_pos shr_1 k (shr_1 x)) ltac:(lia)). lia.
  - pose proof (IHk x H). pose proof (IHk (iter_pos shr_1 k x) ltac:(lia)). lia.
  - apply shr_1_bounds, H.
Qed.

Lemma shr_record_of_loc_m m l : shr_m (shr_record_of_loc m l) = m.
Proof. destruct l as [|[]]; reflexivity. Qed.

Lemma shr_fexp_bounds m e l :
  0 <= m ->
  let '(mrs, e') := shr_fexp prec emax m e l in
  0 <= shr_m mrs <= m /\ e' <= Z.max (Z.max e (Zdigits2 m + e - 53)) (-1074).
Proof.
  intro H. unfold shr_fexp, shr.
  pose proof (Zdigits2_nonneg m) as D.
  destruct (fexp prec emax (Zdigits2 m + e) - e) as [|n|n] eqn:E.
  - rewrite shr_record_of_loc_m. lia.
  - pose proof (iter_shr_1_bounds n (shr_record_of_loc m l)) as B.
    rewrite shr_record_of_loc_m in B. specialize (B H).
    split; [exact B|]. unfold fexp, emin, prec, emax in E. lia.
  - rewrite shr_record_of_loc_m. lia.
Qed.

Lemma round_nearest_even_bounds m l : m <= round_nearest_even m l <= m + 1.
Proof. destruct l as [|[]]; simpl; try lia. destruct (Z.even m); lia. Qed.

Lemma binary_round_aux_class sx mx ex lx :
  0 <= mx ->
  sf_signed sx (binary_round_aux prec emax sx mx ex lx) /\
  (ex <= 0 -> Zdigits2 mx <= 200 -> sf_finite (binary_round_aux prec emax sx mx ex lx)).
Proof.
  intro H. unfold binary_round_aux.
  pose proof (shr_fexp_bounds mx ex lx H) as B1.
  destruct (shr_fexp prec emax mx ex lx) as [mrs1 e1].
  destruct B1 as (M1 & E1).
  pose proof (round_nearest_even_bounds (shr_m mrs1) (loc_of_shr_record mrs1)) as R.
  set (m2 := round_nearest_even (shr_m mrs1) (loc_of_shr_record mrs1)) in *.
  pose proof (shr_fexp_bounds m2 e1 loc_Exact ltac:(lia)) as B2.
  destruct (shr_fexp prec emax m2 e1 loc_Exact) as [mrs2 e2].
  destruct B2 as (M2 & E2).
  assert (D2 : Zdigits2 m2 <= Zdigits2 mx + 1).
  { pose proof (Zdigits2_mono m2 (shr_m mrs1 + 1) ltac:(lia)).
    pose proof (Zdigits2_succ (shr_m mrs1) ltac:(lia)).
    pose proof (Zdigits2_mono (shr_m mrs1) mx ltac:(lia)). lia. }
  pose proof (Zdigits2_nonneg mx). pose proof (Zdigits2_nonneg m2).
  destruct (shr_m mrs2) as [|p|p]; [simpl; auto | | lia].
  destruct (e2 <=? emax - prec) eqn:L; simpl; [auto|].
  split; [reflexivity|]. intros Hb Hd. exfalso. apply Z.leb_gt in L. unfold emax, prec in L. lia.
Qed.

Lemma binary_round_aux_canonical sx m e :
  canonical_mantissa prec emax m e = true -> e <= emax - prec ->
  binary_round_aux prec emax sx (Zpos m) e loc_Exact = S754_finite sx m e.
Proof.
  intros C L. unfold canonical_mantissa in C. apply Z.eqb_eq in C.
  unfold binary_round_aux, shr_fexp. cbn [Zdigits2 shr_record_of_loc].
  rewrite C, Z.sub_diag.
  cbn [shr shr_m shr_r shr_s loc_of_shr_record round_nearest_even Zdigits2 shr_record_of_loc].
  rewrite C, Z.sub_diag. cbn [shr shr_m].
  apply Z.leb_le in L. rewrite L. reflexivity.
Qed.

Lemma valid_digits s m e :
  valid_binary (S754_finite s m e) = true -> Zdigits2 (Zpos m) <= 53.
Proof.
  simpl. unfold bounded, canonical_mantissa. intro H.
  apply andb_true_iff in H. destruct H as [C _]. apply Z.eqb_eq in C.
  unfold fexp, emin, prec, emax in C. lia.
Qed.

Lemma digits_lt_pow2 p : Zpos p < 2 ^ 53 -> Zpos (digits2_pos p) <= 53.
Proof.
  intro H. change (Zpos (digits2_pos p)) with (Zdigits2 (Zpos p)).
  rewrite Zdigits2_log2 by lia.
  assert (Z.log2 (Zpos p) < 53) by (apply Z.log2_lt_pow2; lia). lia.
Qed.

Lemma binary_round_small s p :
  Zpos p < 2 ^ 53 ->
  exists m e, binary_round prec emax s p 0 = S754_finite s m e /\ e <= 0.
Proof.
  intro H. pose proof (digits_lt_pow2 p H) as D.
  assert (D0 : 0 < Zpos (digits2_pos p)) by lia.
  unfold binary_round, shl_align.
  set (d := Zpos (digits2_pos p)) in *.
  assert (F : fexp prec emax (d + 0) = d - 53) by (unfold fexp, emin, prec, emax; lia).
  rewrite F.
  destruct (d - 53 - 0) as [|k|k] eqn:K; try lia.
  - exists p, 0. split; [|lia]. apply binary_round_aux_canonical.
    + unfold canonical_mantissa. fold d. rewrite F. apply Z.eqb_eq. lia.
    + unfold emax, prec. lia.
  - exists (Pos.iter xO p k), (d - 53). split; [|lia]. apply binary_round_aux_canonical.
    + unfold canonical_mantissa. rewrite digits2_iter_xO. fold d.
      apply Z.eqb_eq. unfold fexp, emin, prec, emax. lia.
    + unfold emax, prec. lia.
Qed.

Lemma of_uint63_small z :
  0 < z < 2 ^ 53 ->
  exists m e, Prim2SF (PrimFloat.of_uint63 (Uint63.of_Z z)) = S754_finite false m e /\ e <= 0.
Proof.
  intro H. rewrite of_uint63_spec.
  assert (E : Uint63.to_Z (Uint63.of_Z z) = z).
  { rewrite Uint63.of_Z_spec. apply Z.mod_small. unfold Uint63.wB. simpl.
    split; [lia|]. eapply Z.lt_trans; [apply H|]. reflexivity. }
  change Uint63Axioms.to_Z with Uint63.to_Z. rewrite E.
  destruct z as [|p|p]; try lia. simpl. apply binary_round_small. lia.
Qed.

Lemma of_uint63_not_nan z : Prim2SF (PrimFloat.of_uint63 (Uint63.of_Z z)) <> S754_nan.
Proof.
  rewrite of_uint63_spec. unfold binary_normalize.
  destruct (Uint63Axioms.to_Z (Uint63.of_Z z)) as [|p|p]; [discriminate| |].
  - unfold binary_round. destruct (shl_align _ _ _) as [mz ez].
    pose proof (binary_round_aux_class false (Zpos mz) ez loc_Exact ltac:(lia)) as [S _].
    intro N. rewrite N in S. exact S.
  - unfold binary_round. destruct (shl_align _ _ _) as [mz ez].
    pose proof (binary_round_aux_class true (Zpos mz) ez loc_Exact ltac:(lia)) as [S _].
    intro N. rewrite N in S. exact S.
Qed.

Lemma SFcompare_swap a b : SFcompare b a = option_map CompOpp (SFcompare a b).
Proof.
  destruct a as [sa|sa| |sa ma ea], b as [sb|sb| |sb mb eb]; simpl;
    try reflexivity; try (destruct sa; reflexivity); try (destruct sb; reflexivity);
    try (destruct sa, sb; reflexivity).
  pose proof (Pos.compare_cont_antisym mb ma Eq) as A. revert A.
  change Pos.compare_cont with PosDef.Pos.compare_cont.
  destruct sa, sb; simpl; try reflexivity;
    rewrite (Z.compare_antisym ea eb); destruct (ea ?= eb); simpl; try reflexivity;
    destruct (PosDef.Pos.compare_cont Eq mb ma), (PosDef.Pos.compare_cont Eq ma mb);
    simpl; congruence.
Qed.

Lemma SFcompare_some a b :
  a <> S754_nan -> b <> S754_nan -> exists c, SFcompare a b = Some c.
Proof.
  intros Ha Hb. destruct a, b; simpl; try congruence; eauto.
Qed.

Lemma SFcompare_Eq_finite x s m e :
  SFcompare x (S754_finite s m e) = Some Eq -> x = S754_finite s m e.
Proof.
  destruct x as [sx|sx| |sx mx ex]; simpl; try discriminate.
  - destruct s; discriminate.
  - destruct sx; discriminate.
  - destruct sx, s; try discriminate.
    + destruct (Z.compare_spec ex e); try discriminate. subst.
      intro H. injection H as H. 
      destruct (Pos.compare_cont Eq mx m) eqn:C; try discriminate.
      apply Pos.compare_eq in C. subst. reflexivity.
    + destruct (Z.compare_spec ex e); try discriminate. subst.
      intro H. injection H as H.
      apply Pos.compare_eq in H. subst. reflexivity.
Qed.

(** *** [float(n)] and the division of two ints *)

Lemma SFopp_not_nan x : x <> S754_nan -> SFopp x <> S754_nan.
Proof. destruct x; simpl; congruence. Qed.

Lemma float_of_int_not_nan z : Prim2SF (Py.float_of_int z) <> S754_nan.
Proof.
  unfold Py.float_of_int. destruct (z <? 0).
  - rewrite opp_spec. apply SFopp_not_nan, of_uint63_not_nan.
  - apply of_uint63_not_nan.
Qed.

Lemma float_of_int_pos z :
  0 < z < 2 ^ 53 ->
  exists m e, Prim2SF (Py.float_of_int z) = S754_finite false m e /\ e <= 0.
Proof.
  intro H. unfold Py.float_of_int.
  assert (E : (z <? 0) = false) by (apply Z.ltb_ge; lia). rewrite E.
  apply of_uint63_small, H.
Qed.

Lemma div_eucl_nonneg a b : 0 <= a -> 0 < b -> 0 <= fst (Z.div_eucl a b).
Proof.
  intros Ha Hb. change (fst (Z.div_eucl a b)) with (a / b). apply Z.div_pos; assumption.
Qed.

(** A quotient whose divisor is finite and not zero is not a NaN, unless
    the dividend is one. *)
Lemma div_not_nan a b s m e :
  Prim2SF a <> S754_nan -> Prim2SF b = S754_finite s m e ->
  Prim2SF (a / b) <> S754_nan.
Proof.
  intros Ha Hb. rewrite div_spec, Hb. unfold SF64div, SFdiv.
  destruct (Prim2SF a) as [sa|sa| |sa ma ea]; try discriminate; [congruence|].
  unfold SFdiv_core_binary.
  set (m' := match _ - _ - _ with Z0 => Zpos ma | Zpos _ => _ | Zneg _ => 0 end).
  assert (Hm : 0 <= m').
  { unfold m'. destruct (_ - _ - _); [lia | apply Z.shiftl_nonneg; lia | lia]. }
  pose proof (div_eucl_nonneg m' (Zpos m) Hm ltac:(lia)) as Q.
  destruct (Z.div_eucl m' (Zpos m)) as [q r]. simpl in Q.
  pose proof (binary_round_aux_class (xorb sa s) q
                (Z.min (fexp prec emax (Zdigits2 (Zpos ma) + ea - (Zdigits2 (Zpos m) + e))) (ea - e))
                (new_location (Zpos m) r) Q) as [S _].
  intro N. rewrite N in S. exact S.
Qed.

(** *** The product of two positive finite floats of moderate size *)

Lemma mul_nonneg_finite a b ma ea mb eb :
  Prim2SF a = S754_finite false ma ea -> Prim2SF b = S754_finite false mb eb ->
  ea + eb <= 0 ->
  sf_signed false (Prim2SF (a * b)) /\ sf_finite (Prim2SF (a * b)).
Proof.
  intros Ha Hb He. rewrite mul_spec, Ha, Hb. unfold SF64mul, SFmul. simpl xorb.
  pose proof (Prim2SF_valid a) as Va. rewrite Ha in Va. apply valid_digits in Va.
  pose proof (Prim2SF_valid b) as Vb. rewrite Hb in Vb. apply valid_digits in Vb.
  destruct (binary_round_aux_class false (Zpos (ma * mb)) (ea + eb) loc_Exact ltac:(lia))
    as [S F].
  split; [exact S|]. apply F; [exact He|].
  rewrite Pos2Z.inj_mul.
  pose proof (Zdigits2_mul (Zpos ma) (Zpos mb) ltac:(lia) ltac:(lia)). lia.
Qed.

(** On such a float [int()] succeeds and agrees with [math.floor]. *)
Lemma int_of_float_floor x :
  sf_signed false (Prim2SF x) -> sf_finite (Prim2SF x) ->
  exists n, Py.int_of_float x = Some n /\ Py.floor x = Some n /\ 0 <= n.
Proof.
  unfold Py.int_of_float, Py.floor. destruct (Prim2SF x) as [s|s| |s m e]; simpl; try tauto.
  - intros _ _. exists 0. repeat split; lia.
  - intros -> _. exists (Py.shift_mantissa m e). repeat split.
    unfold Py.shift_mantissa. destruct e as [|k|k].
    + lia.
    + apply Z.mul_nonneg_nonneg; [lia | apply Z.pow_nonneg; lia].
    + apply Z.div_pos; [lia | apply Z.pow_pos_nonneg; lia].
Qed.

(** *** Comparisons against the two bounds of the image zoom *)

Lemma in_range_image_finite r :
  in_range 0.1 6.0 r = true ->
  exists m e, Prim2SF r = S754_finite false m e /\ e <= -50.
Proof.
  unfold in_range. rewrite andb_true_iff, !leb_spec. unfold SFleb.
  change (Prim2SF 0.1) with (S754_finite false 7205759403792794 (-56)).
  change (Prim2SF 6.0) with (S754_finite false 6755399441055744 (-50)).
  destruct (Prim2SF r) as [s|s| |s m e]; unfold SFcompare; cbv beta iota.
  - intros [H _]. discriminate H.
  - destruct s; intros [H1 H2]; [discriminate H1 | discriminate H2].
  - intros [H _]. discriminate H.
  - destruct s; [intros [H _]; discriminate H|].
    intros [_ H]. exists m, e. split; [reflexivity|].
    destruct (Z.compare_spec e (-50)) as [E|E|E]; [lia | lia | discriminate H].
Qed.

(** *** The scale of the paint against the formula of its description *)

Lemma Prim2SF_lo : Prim2SF 0.1 = SF_lo.
Proof. reflexivity. Qed.

Lemma Prim2SF_hi : Prim2SF 6.0 = SF_hi.
Proof. reflexivity. Qed.

Lemma min_refines a b :
  Prim2SF a <> S754_nan -> Prim2SF b <> S754_nan -> Py.min a b = spec_min a b.
Proof.
  intros Ha Hb. unfold Py.min, spec_min. rewrite ltb_spec, leb_spec.
  unfold SFltb, SFleb. rewrite (SFcompare_swap (Prim2SF a) (Prim2SF b)).
  destruct (SFcompare_some _ _ Ha Hb) as [c E]. rewrite E.
  destruct c; reflexivity.
Qed.

Lemma min_not_nan a b :
  Prim2SF a <> S754_nan -> Prim2SF b <> S754_nan -> Prim2SF (Py.min a b) <> S754_nan.
Proof. intros Ha Hb. unfold Py.min. destruct (b <? a)%float; assumption. Qed.

(** Above the upper bound is above the lower bound. *)
Lemma above_hi_above_lo x :
  SFcompare x SF_hi = Some Gt -> SFcompare x SF_lo = Some Gt.
Proof.
  unfold SF_hi, SF_lo.
  destruct x as [s|s| |s m e]; unfold SFcompare; cbv beta iota; try discriminate.
  - destruct s; [discriminate | reflexivity].
  - destruct s; [discriminate|].
    intro H.
    assert (E : -50 <= e).
    { destruct (e ?= -50) eqn:C.
      - apply Z.compare_eq_iff in C. lia.
      - discriminate H.
      - apply Z.compare_gt_iff in C. lia. }
    assert (F : (e ?= -56) = Gt) by (apply Z.compare_gt_iff; lia).
    rewrite F. reflexivity.
Qed.

Lemma compare_hi_lo : SFcompare SF_hi SF_lo = Some Gt.
Proof. reflexivity. Qed.

(** On any number, [max(0.1, min(6.0, x))] is [clamp(x, 0.1, 6.0)]. *)
Lemma clamp_refines v :
  Prim2SF v <> S754_nan -> Py.max 0.1 (Py.min 6.0 v) = spec_clamp v 0.1 6.0.
Proof.
  intro Hv. unfold Py.max, Py.min, spec_clamp.
  assert (Llo : SF_lo <> S754_nan) by discriminate.
  assert (Lhi : SF_hi <> S754_nan) by discriminate.
  destruct (SFcompare_some _ _ Hv Llo) as [c1 E1].
  destruct (SFcompare_some _ _ Hv Lhi) as [c2 E2].
  assert (A : (v <? 6.0)%float = match c2 with Lt => true | _ => false end).
  { rewrite ltb_spec, Prim2SF_hi. unfold SFltb. rewrite E2. reflexivity. }
  assert (B : (6.0 <? v)%float = match c2 with Gt => true | _ => false end).
  { rewrite ltb_spec, Prim2SF_hi. unfold SFltb.
    rewrite (SFcompare_swap (Prim2SF v) SF_hi), E2. destruct c2; reflexivity. }
  assert (C : (v <? 0.1)%float = match c1 with Lt => true | _ => false end).
  { rewrite ltb_spec, Prim2SF_lo. unfold SFltb. rewrite E1. reflexivity. }
  assert (D : (0.1 <? v)%float = match c1 with Gt => true | _ => false end).
  { rewrite ltb_spec, Prim2SF_lo. unfold SFltb.
    rewrite (SFcompare_swap (Prim2SF v) SF_lo), E1. destruct c1; reflexivity. }
  assert (Elo : c1 = Eq -> v = 0.1%float).
  { intros ->. apply Prim2SF_inj. rewrite Prim2SF_lo. apply SFcompare_Eq_finite, E1. }
  assert (Ehi : c2 = Eq -> v = 6.0%float).
  { intros ->. apply Prim2SF_inj. rewrite Prim2SF_hi. apply SFcompare_Eq_finite, E2. }
  assert (G : c2 = Gt -> c1 = Gt).
  { intros ->. apply above_hi_above_lo in E2. congruence. }
  assert (Q : c2 = Eq -> c1 = Gt).
  { intro K. pose proof (Ehi K) as ->. rewrite Prim2SF_hi, compare_hi_lo in E1. congruence. }
  rewrite A, C, B.
  destruct c2.
  - rewrite (Q eq_refl). cbv iota. symmetry. apply Ehi. reflexivity.
  - rewrite D. destruct c1; try reflexivity. symmetry. apply Elo. reflexivity.
  - rewrite (G eq_refl). reflexivity.
Qed.

(** ** The rectangle painted in fit-to-window mode *)

Lemma fdiv_not_nan a b : 0 < b < 2 ^ 53 -> Prim2SF (fdiv a b) <> S754_nan.
Proof.
  intro Hb. destruct (float_of_int_pos b Hb) as (m & e & E & _).
  unfold fdiv. eapply div_not_nan; [apply float_of_int_not_nan | exact E].
Qed.

(** A side of the pixmap times a scale within the image bounds: [int()]
    succeeds on the product and is its floor. *)
Lemma scaled_side n scale :
  0 < n < 2 ^ 53 -> in_range 0.1 6.0 scale = true ->
  exists k, Py.int_of_float (Py.float_of_int n * scale) = Some k /\
            Py.floor (Py.float_of_int n * scale) = Some k /\ 0 <= k.
Proof.
  intros Hn Hs.
  destruct (float_of_int_pos n Hn) as (mn & en & En & Ln).
  destruct (in_range_image_finite scale Hs) as (ms & es & Es & Ls).
  destruct (mul_nonneg_finite _ _ _ _ _ _ En Es ltac:(lia)) as [S F].
  apply int_of_float_floor; assumption.
Qed.

(** C7: with a pixmap of positive width and height and fit-to-window on,
    the paint uses scale = clamp(min(viewport width / pixmap width, viewport
    height / pixmap height), 0.1, 6.0); the rectangle drawn has the pixmap's
    width and height times that scale, floored, and sits at
    ((width - w) // 2, (height - h) // 2).  Sizes are C ints. *)
Theorem C7_fit_to_window_rect :
  forall (v : ImageView.t) (pix : QPixmap) (g : Geometry),
    ImageView._pix v = Some pix ->
    ImageView.fit_to_window v = true ->
    0 < pm_width pix < 2147483648 ->
    0 < pm_height pix < 2147483648 ->
    -2147483648 <= avail_width g < 2147483648 ->
    -2147483648 <= avail_height g < 2147483648 ->
    exists (scale : float) (w h : Z),
      scale = spec_clamp (spec_min (fdiv (avail_width g) (pm_width pix))
                                   (fdiv (avail_height g) (pm_height pix))) 0.1 6.0 /\
      Py.floor (Py.float_of_int (pm_width pix) * scale) = Some w /\
      Py.floor (Py.float_of_int (pm_height pix) * scale) = Some h /\
      ImageView.paintEvent v g =
        ImageView.DrawPixmap
          {| rx := (width g - w) / 2; ry := (height g - h) / 2; rw := w; rh := h |} pix.
Proof.
  intros v pix g Hpix Hfit Hw Hh Haw Hah.
  assert (P : 2147483648 < 2 ^ 53) by reflexivity.
  assert (Hw' : 0 < pm_width pix < 2 ^ 53) by lia.
  assert (Hh' : 0 < pm_height pix < 2 ^ 53) by lia.
  pose proof (fdiv_not_nan (avail_width g) _ Hw') as Nx.
  pose proof (fdiv_not_nan (avail_height g) _ Hh') as Ny.
  set (sx := fdiv (avail_width g) (pm_width pix)) in *.
  set (sy := fdiv (avail_height g) (pm_height pix)) in *.
  set (scale := Py.max 0.1 (Py.min 6.0 (Py.min sx sy))).
  assert (Es : scale = spec_clamp (spec_min sx sy) 0.1 6.0).
  { unfold scale. rewrite clamp_refines by (apply min_not_nan; assumption).
    rewrite min_refines by assumption. reflexivity. }
  assert (Rs : in_range 0.1 6.0 scale = true) by apply image_clamp.
  destruct (scaled_side _ scale Hw' Rs) as (w & Iw & Fw & _).
  destruct (scaled_side _ scale Hh' Rs) as (h & Ih & Fh & _).
  exists scale, w, h. split; [exact Es|]. split; [exact Fw|]. split; [exact Fh|].
  assert (Sc : ImageView.scale_of v pix g = Some scale).
  { unfold ImageView.scale_of, Py.true_div. rewrite Hfit.
    replace (0 <? pm_width pix) with true by (symmetry; apply Z.ltb_lt; lia).
    replace (0 <? pm_height pix) with true by (symmetry; apply Z.ltb_lt; lia).
    replace (pm_width pix =? 0) with false by (symmetry; apply Z.eqb_neq; lia).
    replace (pm_height pix =? 0) with false by (symmetry; apply Z.eqb_neq; lia).
    reflexivity. }
  unfold ImageView.paintEvent. rewrite Hpix, Sc, Iw, Ih. reflexivity.
Qed.

(** The two viewports of the description: 800x600 over a 1600x300 pixmap
    gives scale 0.5 and an 800x150 rectangle at y = 225; over a 400x300
    pixmap it gives scale 2.0 and the whole 800x600 viewport. *)
Lemma C7_witness :
  let g := {| width := 800; height := 600; avail_width := 800; avail_height := 600 |} in
  let view p := ImageView.set_fit true (ImageView.set_image p ImageView.init) in
  spec_clamp (spec_min (fdiv 800 1600) (fdiv 600 300)) 0.1 6.0 = 0.5%float /\
  ImageView.paintEvent (view {| pm_width := 1600; pm_height := 300 |}) g
  = ImageView.DrawPixmap {| rx := 0; ry := 225; rw := 800; rh := 150 |}
      {| pm_width := 1600; pm_height := 300 |} /\
  ImageView.paintEvent (view {| pm_width := 400; pm_height := 300 |}) g
  = ImageView.DrawPixmap {| rx := 0; ry := 0; rw := 800; rh := 600 |}
      {| pm_width := 400; pm_height := 300 |}.
Proof.
  intros g view. split; [vm_compute; reflexivity|]. split.
  - destruct (C7_fit_to_window_rect (view {| pm_width := 1600; pm_height := 300 |})
                {| pm_width := 1600; pm_height := 300 |} g eq_refl eq_refl
                ltac:(simpl; lia) ltac:(simpl; lia) ltac:(simpl; lia) ltac:(simpl; lia))
      as (scale & w & h & Es & Ew & Eh & Ep).
    rewrite Ep. vm_compute in Es. subst scale.
    vm_compute in Ew. vm_compute in Eh.
    injection Ew as <-. injection Eh as <-. reflexivity.
  - destruct (C7_fit_to_window_rect (view {| pm_width := 400; pm_height := 300 |})
                {| pm_width := 400; pm_height := 300 |} g eq_refl eq_refl
                ltac:(simpl; lia) ltac:(simpl; lia) ltac:(simpl; lia) ltac:(simpl; lia))
      as (scale & w & h & Es & Ew & Eh & Ep).
    rewrite Ep. vm_compute in Es. subst scale.
    vm_compute in Ew. vm_compute in Eh.
    injection Ew as <-. injection Eh as <-. reflexivity.
Defined.

(** * Further properties of the handlers *)

(** ** Shapes of the handlers *)

Ltac break_if :=
  match goal with
  | |- context [if ?c then _ else _] => destruct c eqn:?
  end.

Ltac break_match :=
  match goal with
  | |- context [match ?c with _ => _ end] => destruct c eqn:?
  end.

(** The three ways through [load_path]: image decoded, image not decoded,
    text read, text not read. *)
Ltac load_cases fs path :=
  unfold load_path, load_body;
  destruct (Str.mem (ext_of path) IMG_EXTS) eqn:?;
  [ destruct (pixmap_of fs path) eqn:?
  | destruct (text_of fs path) as [[? ?]|?] eqn:? ].

Lemma window_eta (w : t) :
  w = set_find_count (find_count w) (set_text_cursor (text_cursor w) w).
Proof. destruct w. reflexivity. Qed.

(** A search writes the cursor and the count label, nothing else. *)
Lemma find_next_shape w :
  exists k c, find_next w = set_find_count c (set_text_cursor k w).
Proof.
  unfold find_next.
  destruct (Str.is_empty (find_edit w) || negb (text_visible w)).
  - exists (text_cursor w), (find_count w). apply window_eta.
  - unfold text_find, update_find_count.
    destruct (Str.indexOf false (text_plain w) (find_edit w) (selectionEnd (text_cursor w))).
    + cbn. destruct (text_visible w); cbn; eexists; eexists; reflexivity.
    + cbn. destruct (Str.indexOf false (text_plain w) (find_edit w) _);
        cbn; destruct (text_visible w); cbn; eexists; eexists; reflexivity.
Qed.

Lemma exclusive_run sys l :
  both_visible (run sys (init sys) l) = false.
Proof.
  apply (run_invariant sys (fun w => both_visible w = false)).
  - reflexivity.
  - intros w a. apply both_visible_step.
Qed.

(** ** The check box and the flag *)

Lemma fit_synced_step sys w a : fit_synced w -> fit_synced (step sys w a).
Proof.
  intros [F S]. split; [rewrite filtered_step; exact F|].
  destruct a; cbn [step]; try exact S.
  - load_cases fs path; exact S.
  - unfold click_fit, setChecked. destruct (chk_fit w) eqn:C; cbn; rewrite ?C; reflexivity.
  - unfold zoom_image, setChecked. destruct (ImageView.visible (image w)); [|exact S].
    cbn. destruct (chk_fit w) eqn:C; cbn; rewrite ?C; reflexivity.
  - unfold zoom_image, setChecked. destruct (ImageView.visible (image w)); [|exact S].
    cbn. destruct (chk_fit w) eqn:C; cbn; rewrite ?C; reflexivity.
  - unfold reset_zoom, setChecked. destruct (ImageView.visible (image w)); [|exact S].
    cbn. destruct (chk_fit w) eqn:C; cbn; rewrite ?C; reflexivity.
  - unfold deliver. rewrite F. destruct obj; cbn [existsb widget_eqb orb]; try exact S.
    unfold eventFilter. cbn [widget_eqb andb].
    destruct (_ && _ && _); exact S.
  - destruct (find_next_shape w) as (k & c & ->). exact S.
Qed.

(** In every state the window can reach, the Fit to Window box is ticked
    exactly when the image label is in fit-to-window mode. *)
Theorem fit_flag_matches_checkbox :
  forall (sys : System) (l : list Action),
    let w := run sys (init sys) l in
    ImageView.fit_to_window (image w) = chk_fit w.
Proof.
  intros sys l.
  apply (run_invariant sys fit_synced).
  - split; reflexivity.
  - intros w a. apply fit_synced_step.
Qed.

(** ** Zoom actions while the text pane is shown *)

(** With the text pane shown, Zoom + and Zoom - change nothing at all, and
    100% resets the text font and text factor and nothing of the image. *)
Theorem zoom_actions_with_text_shown :
  forall (sys : System) (l : list Action),
    let w := run sys (init sys) l in
    text_visible w = true ->
    step sys w ZoomIn = w /\ step sys w ZoomOut = w /\
    step sys w ResetZoom = set_text_font (fixed_font sys) (set_text_zoom 1.0%float w) /\
    image (step sys w ResetZoom) = image w.
Proof.
  intros sys l w Hv.
  pose proof (exclusive_run sys l) as E. fold w in E.
  unfold both_visible in E. rewrite Hv in E. cbn in E.
  cbn [step]. unfold zoom_image, reset_zoom. rewrite E. cbn. repeat split.
Qed.

Lemma zoom_actions_with_text_shown_witness :
  let w := run sys_ex (init sys_ex) [Load (fs_text "hello") "a.txt"; ctrl_wheel_up] in
  step sys_ex w ZoomIn = w /\
  text_font (step sys_ex w ResetZoom) = fixed_font sys_ex.
Proof.
  pose proof (zoom_actions_with_text_shown sys_ex
                [Load (fs_text "hello") "a.txt"; ctrl_wheel_up] eq_refl) as H.
  cbv zeta in *. destruct H as (H1 & _ & H3 & _).
  split; [exact H1|]. rewrite H3. reflexivity.
Defined.

(** ** Clear *)

(** Clear twice is Clear once; Clear keeps the recent list and its menu,
    the pixmap, both zoom factors, the fit flag and check box, the text
    font, the find box and the error log; after it a search and the zoom
    actions do nothing. *)
Theorem clear_idempotent_and_frame :
  forall (sys : System) (w : t),
    let w' := clear w in
    clear w' = w' /\
    _current_path w' = None /\ text_plain w' = EmptyString /\ status w' = EmptyString /\
    text_visible w' = false /\ ImageView.visible (image w') = false /\
    _recents w' = _recents w /\ recent_menu w' = recent_menu w /\
    ImageView._pix (image w') = ImageView._pix (image w) /\
    ImageView.zoom (image w') = ImageView.zoom (image w) /\
    ImageView.fit_to_window (image w') = ImageView.fit_to_window (image w) /\
    chk_fit w' = chk_fit w /\ text_zoom w' = text_zoom w /\
    text_font w' = text_font w /\ find_edit w' = find_edit w /\
    find_count w' = find_count w /\ dialogs w' = dialogs w /\
    step sys w' FindNext = w' /\ step sys w' ZoomIn = w' /\ step sys w' ZoomOut = w'.
Proof.
  intros sys w w'. unfold w'. repeat split.
  cbn [step]. unfold find_next. cbn [clear text_visible set_status on_image
    set_image_view set_text_visible]. rewrite orb_true_r. reflexivity.
Qed.

(** ** What the actions other than a load leave alone *)

Lemma step_not_load sys w a :
  (forall fs p, a <> Load fs p) ->
  recent_menu (step sys w a) = recent_menu w /\
  dialogs (step sys w a) = dialogs w /\
  ImageView._pix (image (step sys w a)) = ImageView._pix (image w) /\
  (a <> ClearRecents -> _recents (step sys w a) = _recents w) /\
  (a <> Clear -> ImageView.visible (image (step sys w a)) = ImageView.visible (image w)).
Proof.
  intro NL.
  assert (D : forall A B C D' E : Prop, A -> B -> C -> D' -> E -> A /\ B /\ C /\ D' /\ E)
    by tauto.
  destruct a; cbn [step].
  - exfalso. eapply NL. reflexivity.
  - apply D; try reflexivity. intro C. exfalso. apply C. reflexivity.
  - unfold click_fit, setChecked. break_if; apply D; try reflexivity; try (cbn; congruence); intros _; cbn; congruence.
  - unfold zoom_image, setChecked.
    repeat break_if; apply D; try reflexivity; try (cbn; congruence); intros _; cbn; congruence.
  - unfold zoom_image, setChecked.
    repeat break_if; apply D; try reflexivity; try (cbn; congruence); intros _; cbn; congruence.
  - unfold reset_zoom, setChecked.
    repeat break_if; apply D; try reflexivity; try (cbn; congruence); intros _; cbn; congruence.
  - unfold deliver, eventFilter.
    repeat break_if; apply D; try reflexivity; try (cbn; congruence); intros _; cbn; congruence.
  - apply D; try reflexivity; try (cbn; congruence); intros _; cbn; congruence.
  - destruct (find_next_shape w) as (k & c & ->).
    apply D; try reflexivity; try (cbn; congruence); intros _; cbn; congruence.
  - apply D; try reflexivity. intro C. exfalso. apply C. reflexivity.
Qed.

(** ** A failed load, in general *)

(** The shape of a load that fails. *)
Lemma load_path_failure_message :
  forall (fs : FileSystem) (path : Path) (w : t),
    load_fails fs path = true ->
    load_path fs path w
    = critical "Error" (failure_message fs path) (set_current_path (Some path) w) /\
    failure_message fs path <> EmptyString.
Proof.
  intros fs path w. unfold load_fails, failure_message.
  load_cases fs path; intro H; try discriminate H.
  - split; [reflexivity | discriminate].
  - split; [reflexivity | apply str_of_exception_OSError_nonempty].
Qed.



(** ** Error dialogs come from failed loads only *)


(** ** The recent menu *)

Lemma touch_nonempty p r : touch p r <> [].
Proof.
  unfold touch. intro E. apply (f_equal (@List.length Path)) in E.
  rewrite last_n_length, length_app in E. cbn [List.length] in E. lia.
Qed.

Lemma menu_of_no_placeholder r label : ~ In (Disabled label) (menu_of r).
Proof.
  unfold menu_of. intro H. apply in_app_or in H. destruct H as [H|H].
  - apply in_map_iff in H. destruct H as (x & E & _). discriminate E.
  - simpl in H. destruct H as [H|[H|[]]]; discriminate H.
Qed.

Lemma refresh_recents_menu w :
  _recents w <> [] -> recent_menu (refresh_recents w) = menu_of (_recents w).
Proof.
  intro N. unfold refresh_recents. destruct (_recents w); [contradiction | reflexivity].
Qed.

(** A load that succeeds ends by putting the path through [touch] and
    rebuilding the menu. *)
Lemma load_path_success_shape fs p w :
  load_fails fs p = false ->
  exists w1, _recents w1 = _recents w /\
    load_path fs p w = refresh_recents (set_recents (touch p (_recents w1)) w1).
Proof.
  unfold load_fails. load_cases fs p; intro F; try discriminate F;
    eexists; (split; [|reflexivity]); reflexivity.
Qed.

(** After a load that succeeds the menu is rebuilt from the new list. *)
Lemma load_path_menu fs p w :
  load_fails fs p = false ->
  recent_menu (load_path fs p w) = menu_of (_recents (load_path fs p w)).
Proof.
  intro F. destruct (load_path_success_shape fs p w F) as (w1 & R & E).
  rewrite E. rewrite refresh_recents_menu; [reflexivity|].
  cbn [_recents set_recents]. apply touch_nonempty.
Qed.

Lemma load_path_menu_fail fs p w :
  load_fails fs p = true ->
  recent_menu (load_path fs p w) = recent_menu w.
Proof.
  intro F. destruct (load_path_failure_message fs p w F) as [E _]. rewrite E. reflexivity.
Qed.

Lemma menu_ok_step sys w a : menu_ok w -> menu_ok (step sys w a).
Proof.
  intros [P S].
  assert (K : forall b, (forall fs p, b <> Load fs p) -> b <> ClearRecents ->
                        menu_ok (step sys w b)).
  { intros b NL NC. destruct (step_not_load sys w b NL) as (M & _ & _ & R & _).
    unfold menu_ok. rewrite M, (R NC). split; assumption. }
  destruct a as [fs path| | | | | | | | |];
    try (apply K; [intros ? ?; discriminate | discriminate]); cbn [step].
  - destruct (load_fails fs path) eqn:F.
    + unfold menu_ok. rewrite load_path_menu_fail, load_path_recents_fail by exact F.
      split; assumption.
    + unfold menu_ok. rewrite load_path_menu by exact F. split.
      * intro label. apply menu_of_no_placeholder.
      * right. reflexivity.
  - split; [exact P | left; reflexivity].
Qed.

Lemma menu_ok_run sys l : menu_ok (run sys (init sys) l).
Proof.
  apply (run_invariant sys menu_ok).
  - split; [intros label H; exact H | left; reflexivity].
  - intros w a. apply menu_ok_step.
Qed.

(** The disabled "(empty)" entry that [refresh_recents] can build never
    shows in the Recent menu: the menu is rebuilt only right after a path
    was added to the list. *)
Theorem recent_menu_never_shows_placeholder :
  forall (sys : System) (l : list Action) (label : string),
    ~ In (Disabled label) (recent_menu (run sys (init sys) l)).
Proof. intros sys l label. apply (menu_ok_run sys l). Qed.

(** Whenever the recent list is not empty, the menu lists exactly its
    paths, most recent first, followed by the separator and the Clear Recent
    Files action. *)
Theorem recent_menu_lists_recents :
  forall (sys : System) (l : list Action),
    let w := run sys (init sys) l in
    _recents w <> [] ->
    recent_menu w = map OpenRecent (rev (_recents w)) ++ [Separator; ClearRecent].
Proof.
  intros sys l w N. destruct (menu_ok_run sys l) as [_ [E|E]]; [contradiction | exact E].
Qed.

Lemma recent_menu_lists_recents_witness :
  recent_menu (run sys_ex (init sys_ex) [Load (fs_text "x") "A"; Load (fs_text "x") "B"])
  = [OpenRecent "B"; OpenRecent "A"; Separator; ClearRecent].
Proof.
  rewrite (recent_menu_lists_recents sys_ex [Load (fs_text "x") "A"; Load (fs_text "x") "B"]).
  - reflexivity.
  - discriminate.
Defined.

(** ** What a load that succeeds writes *)

(** Loading an image stores the path, shows the image label and hides the
    text pane, sets the status to path, em dash, width x height, px, and
    leaves the text, its cursor, font and zoom factor, the find box and
    label, the check box and the error log as they were. *)
Theorem load_image_effect :
  forall (fs : FileSystem) (path : Path) (w : t) (pix : QPixmap),
    Str.mem (ext_of path) IMG_EXTS = true ->
    pixmap_of fs path = Some pix ->
    let w' := load_path fs path w in
    _current_path w' = Some path /\
    ImageView.visible (image w') = true /\ text_visible w' = false /\
    status w' = (path ++ " " ++ em_dash ++ " " ++ Py.str_of_Z (pm_width pix) ++ "x"
                   ++ Py.str_of_Z (pm_height pix) ++ " px")%string /\
    text_plain w' = text_plain w /\ text_cursor w' = text_cursor w /\
    text_font w' = text_font w /\ text_zoom w' = text_zoom w /\
    find_edit w' = find_edit w /\ find_count w' = find_count w /\
    chk_fit w' = chk_fit w /\ dialogs w' = dialogs w.
Proof.
  intros fs path w pix Himg Hpix w'. unfold w', load_path, load_body.
  rewrite Himg, Hpix. repeat split.
Qed.

Lemma load_image_effect_witness :
  let w := load_path (fs_text "hello") "a.txt" (init sys_ex) in
  let w' := load_path (fs_image {| pm_width := 1600; pm_height := 300 |}) "b.png" w in
  status w' = "b.png — 1600x300 px" /\ text_plain w' = "hello" /\ text_visible w' = false.
Proof.
  pose proof (load_image_effect (fs_image {| pm_width := 1600; pm_height := 300 |}) "b.png"
                (load_path (fs_text "hello") "a.txt" (init sys_ex))
                {| pm_width := 1600; pm_height := 300 |} eq_refl eq_refl) as H.
  cbv zeta in *. destruct H as (_ & _ & Hv & Hs & Ht & _).
  split; [rewrite Hs; vm_compute; reflexivity|]. split; [rewrite Ht; reflexivity | exact Hv].
Defined.



(** ** The pixmap of the image label *)

Lemma shown_has_pixmap_step sys w a : shown_has_pixmap w -> shown_has_pixmap (step sys w a).
Proof.
  unfold shown_has_pixmap. intro H.
  destruct a as [fs path| | | | | | | | |].
  - cbn [step]. load_cases fs path; cbn; try exact H; try discriminate.
  - cbn. discriminate.
  - destruct (step_not_load sys w ClickFit ltac:(intros ? ?; discriminate)) as (_ & _ & P & _ & V).
    rewrite P, V by discriminate. exact H.
  - destruct (step_not_load sys w ZoomIn ltac:(intros ? ?; discriminate)) as (_ & _ & P & _ & V).
    rewrite P, V by discriminate. exact H.
  - destruct (step_not_load sys w ZoomOut ltac:(intros ? ?; discriminate)) as (_ & _ & P & _ & V).
    rewrite P, V by discriminate. exact H.
  - destruct (step_not_load sys w ResetZoom ltac:(intros ? ?; discriminate)) as (_ & _ & P & _ & V).
    rewrite P, V by discriminate. exact H.
  - destruct (step_not_load sys w (Event obj ev) ltac:(intros ? ?; discriminate))
      as (_ & _ & P & _ & V).
    rewrite P, V by discriminate. exact H.
  - destruct (step_not_load sys w (TypeFind s) ltac:(intros ? ?; discriminate))
      as (_ & _ & P & _ & V).
    rewrite P, V by discriminate. exact H.
  - destruct (step_not_load sys w FindNext ltac:(intros ? ?; discriminate)) as (_ & _ & P & _ & V).
    rewrite P, V by discriminate. exact H.
  - destruct (step_not_load sys w ClearRecents ltac:(intros ? ?; discriminate))
      as (_ & _ & P & _ & V).
    rewrite P, V by discriminate. exact H.
Qed.

(** Whenever the image label is shown it holds a pixmap, so its paint
    handler never takes the early return. *)
Theorem shown_image_has_pixmap :
  forall (sys : System) (l : list Action),
    let w := run sys (init sys) l in
    ImageView.visible (image w) = true ->
    exists pix, ImageView._pix (image w) = Some pix.
Proof.
  intros sys l w V.
  assert (H : shown_has_pixmap w).
  { apply (run_invariant sys shown_has_pixmap).
    - intro F. discriminate F.
    - intros w0 a. apply shown_has_pixmap_step. }
  specialize (H V). destruct (ImageView._pix (image w)) as [pix|]; [eauto | contradiction].
Qed.

Lemma shown_image_has_pixmap_witness :
  exists pix, ImageView._pix (image w_image_fit) = Some pix.
Proof.
  exact (shown_image_has_pixmap sys_ex
           [Load (fs_image {| pm_width := 1600; pm_height := 300 |}) "a.png"; ClickFit]
           eq_refl).
Defined.

(** The size hint of the image label changes only when an image is loaded
    and decoded; zooming, fitting, Clear, a failed load and a text load
    leave it as it was. *)
Theorem size_hint_changes_only_on_image_load :
  forall (sys : System) (w : t) (a : Action) (hint : Z * Z),
    ImageView.sizeHint (image (step sys w a)) hint = ImageView.sizeHint (image w) hint \/
    exists fs p pix,
      a = Load fs p /\ Str.mem (ext_of p) IMG_EXTS = true /\ pixmap_of fs p = Some pix /\
      ImageView.sizeHint (image (step sys w a)) hint = (pm_width pix, pm_height pix).
Proof.
  intros sys w a hint. unfold ImageView.sizeHint.
  destruct a as [fs path| | | | | | | | |];
    try (left; match goal with
               | |- context [step sys w ?b] =>
                   destruct (step_not_load sys w b ltac:(intros ? ?; discriminate))
                     as (_ & _ & P & _); rewrite P; reflexivity
               end).
  cbn [step]. load_cases fs path.
  - right. exists fs, path, q. repeat split; assumption.
  - left. reflexivity.
  - left. reflexivity.
  - left. reflexivity.
Qed.

(** ** Searching: where the cursor goes *)

Lemma drop_drop a b s : Str.drop a (Str.drop b s) = Str.drop (b + a) s.
Proof.
  revert s. induction b as [|b IH]; intro s; [reflexivity|].
  destruct s as [|c s]; [destruct a; reflexivity|]. simpl. apply IH.
Qed.

Lemma drop_length n s : String.length (Str.drop n s) = (String.length s - n)%nat.
Proof.
  revert s. induction n as [|n IH]; intro s; [simpl; lia|].
  destruct s as [|c s]; [reflexivity|]. simpl. apply IH.
Qed.

Lemma starts_with_length cs needle s :
  Str.starts_with cs needle s = true -> (String.length needle <= String.length s)%nat.
Proof.
  revert s. induction needle as [|a n IH]; intros s H; [simpl; lia|].
  destruct s as [|b s]; [discriminate H|]. simpl in H.
  apply andb_true_iff in H. destruct H as [_ H]. apply IH in H. simpl. lia.
Qed.

(** [index_in] answers the first position at which the needle matches. *)
Lemma index_in_Some cs needle s i :
  Str.index_in cs needle s = Some i ->
  Str.starts_with cs needle (Str.drop i s) = true /\
  (i < String.length s)%nat /\
  (forall j, (j < i)%nat -> Str.starts_with cs needle (Str.drop j s) = false).
Proof.
  revert i. induction s as [|c s IH]; intros i H; [discriminate H|].
  cbn [Str.index_in] in H.
  destruct (Str.starts_with cs needle (String c s)) eqn:E.
  - injection H as <-. split; [exact E|]. split; [simpl; lia|]. intros j Hj. lia.
  - destruct (Str.index_in cs needle s) as [k|] eqn:K; [|discriminate H].
    injection H as <-. destruct (IH k eq_refl) as (M & B & N). split; [exact M|].
    split; [simpl; lia|].
    intros [|j] Hj; [exact E|]. apply N. lia.
Qed.

Lemma index_in_None cs needle s :
  needle <> EmptyString ->
  Str.index_in cs needle s = None ->
  forall j, Str.starts_with cs needle (Str.drop j s) = false.
Proof.
  intro NE. induction s as [|c s IH]; intros H j.
  - destruct needle; [contradiction|]. destruct j; reflexivity.
  - cbn [Str.index_in] in H.
    destruct (Str.starts_with cs needle (String c s)) eqn:E; [discriminate H|].
    destruct (Str.index_in cs needle s) eqn:K; [discriminate H|].
    destruct j as [|j]; [exact E|]. apply IH. reflexivity.
Qed.

Lemma indexOf_Some cs s needle from i :
  Str.indexOf cs s needle from = Some i ->
  (from <= i)%nat /\ Str.starts_with cs needle (Str.drop i s) = true /\
  (i + String.length needle <= String.length s)%nat /\
  (forall j, (from <= j < i)%nat -> Str.starts_with cs needle (Str.drop j s) = false).
Proof.
  unfold Str.indexOf.
  destruct (Str.index_in cs needle (Str.drop from s)) as [k|] eqn:K; [|discriminate].
  intro H. injection H as <-. destruct (index_in_Some _ _ _ _ K) as (M & B & N).
  rewrite drop_drop in M. rewrite drop_length in B.
  split; [lia|]. split; [exact M|]. split.
  - apply starts_with_length in M. rewrite drop_length in M. lia.
  - intros j Hj. replace j with (from + (j - from))%nat by lia.
    rewrite <- drop_drop. apply N. lia.
Qed.



(** The cursor after a search that runs. *)
Lemma find_next_cursor w :
  Str.is_empty (find_edit w) = false -> text_visible w = true ->
  text_cursor (find_next w)
  = match Str.indexOf false (text_plain w) (find_edit w) (selectionEnd (text_cursor w)) with
    | Some i => {| anchor := i; position := i + String.length (find_edit w) |}
    | None =>
        match Str.indexOf false (text_plain w) (find_edit w) 0 with
        | Some i => {| anchor := i; position := i + String.length (find_edit w) |}
        | None => {| anchor := 0; position := 0 |}
        end
    end.
Proof.
  intros NE V. unfold find_next, text_find, update_find_count. rewrite NE, V.
  cbn [orb negb].
  destruct (Str.indexOf false (text_plain w) (find_edit w) (selectionEnd (text_cursor w))).
  - cbn. rewrite V. reflexivity.
  - cbn. destruct (Str.indexOf false (text_plain w) (find_edit w) 0); cbn; rewrite V; reflexivity.
Qed.



(** A match with case is a match without. *)
Lemma starts_with_case cs needle s :
  Str.starts_with true needle s = true -> Str.starts_with cs needle s = true.
Proof.
  destruct cs; [tauto|].
  revert s. induction needle as [|a n IH]; intros s H; [reflexivity|].
  destruct s as [|b s]; [discriminate H|]. cbn [Str.starts_with] in *.
  apply andb_true_iff in H. destruct H as [E H]. apply Ascii.eqb_eq in E. subst b.
  rewrite Ascii.eqb_refl. cbn [andb]. apply IH, H.
Qed.

Lemma count_skip_zero needle s :
  (forall j, Str.starts_with true needle (Str.drop j s) = false) ->
  forall skip, Str.count_skip needle skip s = 0%nat.
Proof.
  induction s as [|c s IH]; intros H skip.
  - destruct skip; [|reflexivity]. cbn [Str.count_skip].
    pose proof (H 0%nat) as H0. cbn [Str.drop] in H0. rewrite H0. reflexivity.
  - assert (H' : forall j, Str.starts_with true needle (Str.drop j s) = false).
    { intro j. exact (H (S j)). }
    destruct skip as [|k]; cbn [Str.count_skip].
    + pose proof (H 0%nat) as H0. cbn [Str.drop] in H0. rewrite H0. apply IH, H'.
    + apply IH, H'.
Qed.

(** A search for a needle that occurs nowhere in the text (letter case
    ignored) drops the selection and leaves the cursor at the start of the
    text, and the label reads 0 match(es). *)
Theorem find_next_without_occurrence :
  forall (w : t),
    Str.is_empty (find_edit w) = false -> text_visible w = true ->
    (forall j, Str.starts_with false (find_edit w) (Str.drop j (text_plain w)) = false) ->
    text_cursor (find_next w) = {| anchor := 0; position := 0 |} /\
    find_count (find_next w) = "0 match(es)".
Proof.
  intros w NE V N. split.
  - rewrite (find_next_cursor w NE V).
    destruct (Str.indexOf false (text_plain w) (find_edit w) (selectionEnd (text_cursor w)))
      as [i|] eqn:E1.
    + destruct (indexOf_Some _ _ _ _ _ E1) as (_ & M & _). rewrite N in M. discriminate M.
    + destruct (Str.indexOf false (text_plain w) (find_edit w) 0) as [i|] eqn:E2;
        [|reflexivity].
      destruct (indexOf_Some _ _ _ _ _ E2) as (_ & M & _). rewrite N in M. discriminate M.
  - rewrite (find_next_count w NE V). unfold Str.count.
    rewrite count_skip_zero; [reflexivity|].
    intro j. destruct (Str.starts_with true (find_edit w) (Str.drop j (text_plain w))) eqn:E;
      [|reflexivity].
    apply (starts_with_case false) in E. rewrite N in E. discriminate E.
Qed.

Lemma starts_with_nowhere needle s :
  Str.index_in false needle s = None -> needle <> EmptyString ->
  forall j, Str.starts_with false needle (Str.drop j s) = false.
Proof. intros H NE. apply index_in_None; assumption. Qed.

Lemma find_next_without_occurrence_witness :
  let w := find_next (find_next (w_find "ab ab ab" "ab")) in
  text_cursor w = {| anchor := 3; position := 5 |} /\
  text_cursor (find_next (set_find_edit "zz" w)) = {| anchor := 0; position := 0 |}.
Proof.
  split; [vm_compute; reflexivity|].
  apply (find_next_without_occurrence
           (set_find_edit "zz" (find_next (find_next (w_find "ab ab ab" "ab"))))
           eq_refl eq_refl).
  apply starts_with_nowhere; [vm_compute; reflexivity | discriminate].
Defined.

(** ** The cursor stays inside the text *)




(** ** The recent list after loading distinct files *)

Lemma In_last_n (x : Path) n l : In x (last_n n l) -> In x l.
Proof.
  unfold last_n. intro H. rewrite <- (firstn_skipn (List.length l - n) l).
  apply in_or_app. right. exact H.
Qed.

Lemma last_n_snoc n (l : list Path) (p : Path) :
  (1 <= n)%nat -> last_n n (last_n n l ++ [p]) = last_n n (l ++ [p]).
Proof.
  intro Hn. unfold last_n. rewrite !length_app, length_skipn. cbn [List.length].
  destruct (Nat.le_gt_cases (List.length l) n) as [L|L].
  - replace (List.length l - n)%nat with 0%nat by lia. cbn [skipn].
    replace (List.length l - 0)%nat with (List.length l) by lia. reflexivity.
  - rewrite !skipn_app, length_skipn, skipn_skipn.
    replace (List.length l - (List.length l - n) + 1 - n)%nat with 1%nat by lia.
    replace (1 + (List.length l - n))%nat with (List.length l + 1 - n)%nat by lia.
    replace (1 - (List.length l - (List.length l - n)))%nat with 0%nat by lia.
    replace (List.length l + 1 - n - List.length l)%nat with 0%nat by lia.
    reflexivity.
Qed.

Lemma touch_new p r : ~ In p r -> touch p r = last_n 10 (r ++ [p]).
Proof.
  intro N. unfold touch. apply mem_not_In in N. rewrite N. reflexivity.
Qed.

Lemma recents_of_loads sys (files : list (FileSystem * Path)) :
  NoDup (map snd files) ->
  Forall (fun fp => load_fails (fst fp) (snd fp) = false) files ->
  _recents (run sys (init sys) (loads_of files)) = last_n 10 (map snd files).
Proof.
  induction files as [|[fs p] files IH] using rev_ind; intros ND OK; [reflexivity|].
  unfold loads_of in *. rewrite map_app in ND |- *. rewrite map_app.
  cbn [map fst snd] in *. rewrite run_app. cbn [run fold_left step].
  apply Forall_app in OK. destruct OK as [OK1 OK2].
  inversion OK2 as [|? ? F _]; subst. cbn [fst snd] in F.
  rewrite load_path_recents by exact F.
  assert (ND1 : NoDup (map snd files) /\ ~ In p (map snd files)).
  { apply NoDup_remove with (l' := []) in ND. rewrite app_nil_r in ND. exact ND. }
  destruct ND1 as [ND1 NI].
  fold (run sys (init sys) (map (fun fp => Load (fst fp) (snd fp)) files)).
  rewrite (IH ND1 OK1).
  rewrite touch_new by (intro H; apply NI, (In_last_n _ _ _ H)).
  apply last_n_snoc. lia.
Qed.

(** Loading any number of distinct files, each with success, from a fresh
    window leaves in the recent list the last ten of them, in loading
    order. *)
Theorem recents_after_distinct_loads :
  forall (sys : System) (files : list (FileSystem * Path)),
    NoDup (map snd files) ->
    Forall (fun fp => load_fails (fst fp) (snd fp) = false) files ->
    _recents (run sys (init sys) (loads_of files))
    = skipn (List.length files - 10) (map snd files).
Proof.
  intros sys files ND OK. rewrite (recents_of_loads sys files ND OK).
  unfold last_n. rewrite length_map. reflexivity.
Qed.

Lemma recents_after_distinct_loads_witness :
  _recents (run sys_ex (init sys_ex)
              (loads_of [(fs_text "x", "a"); (fs_text "y", "b"); (fs_text "z", "c")]))
  = ["a"; "b"; "c"].
Proof.
  rewrite (recents_after_distinct_loads sys_ex
             [(fs_text "x", "a"); (fs_text "y", "b"); (fs_text "z", "c")]).
  - reflexivity.
  - repeat constructor; simpl; intuition discriminate.
  - repeat constructor.
Defined.

(** ** The extension that classifies a path *)

Lemma rsplit_None c s : has_char c s = false -> Str.rsplit c s = None.
Proof.
  induction s as [|a s IH]; intro H; [reflexivity|].
  cbn [has_char] in H. apply orb_false_iff in H. destruct H as [E H].
  cbn [Str.rsplit]. rewrite (IH H), E. reflexivity.
Qed.

Lemma rsplit_last c a b :
  has_char c b = false -> Str.rsplit c (a ++ String c b)%string = Some (a, b).
Proof.
  intro H. induction a as [|x a IH].
  - cbn [String.append Str.rsplit]. rewrite (rsplit_None c b H), Ascii.eqb_refl. reflexivity.
  - cbn [String.append Str.rsplit]. rewrite IH. reflexivity.
Qed.

Lemma has_char_app c a b :
  has_char c (a ++ b)%string = has_char c a || has_char c b.
Proof.
  induction a as [|x a IH]; [reflexivity|].
  cbn [String.append has_char]. rewrite IH. apply orb_assoc.
Qed.

Lemma name_of_dir dir nm :
  has_char "/" nm = false -> PathLib.name (dir ++ String "/" nm)%string = nm.
Proof. intro H. unfold PathLib.name. rewrite rsplit_last by exact H. reflexivity. Qed.

Lemma name_plain nm : has_char "/" nm = false -> PathLib.name nm = nm.
Proof. intro H. unfold PathLib.name. rewrite rsplit_None by exact H. reflexivity. Qed.

Lemma lower_char_dot x : Str.lower_char x = "."%char -> x = "."%char.
Proof.
  destruct x as [[] [] [] [] [] [] [] []]; cbv; intro H;
    first [reflexivity | discriminate H].
Qed.

Lemma lstrip_dot_lower e : has_char "." e = false -> Str.lstrip_dot (Str.lower e) = Str.lower e.
Proof.
  destruct e as [|x e]; [reflexivity|]. cbn [has_char Str.lower]. intro H.
  apply orb_false_iff in H. destruct H as [E _].
  destruct (Ascii.eqb (Str.lower_char x) ".") eqn:D.
  - apply Ascii.eqb_eq, lower_char_dot in D. subst x. discriminate E.
  - unfold Str.lstrip_dot.
    destruct (Str.lower_char x) as [b0 b1 b2 b3 b4 b5 b6 b7] eqn:L.
    destruct b0, b1, b2, b3, b4, b5, b6, b7; try reflexivity. discriminate D.
Qed.

(** The extension of [stem.ext] in any directory is [ext] in lower case,
    when [stem] and [ext] are not empty and [ext] has no dot; a component
    with no dot, one that starts with its only dot (a hidden file) and one
    that ends with a dot have the empty extension, and so are loaded as
    text. *)
Theorem ext_of_last_component :
  forall (dir stem e : string),
    has_char "/" stem = false -> has_char "/" e = false -> has_char "." e = false ->
    stem <> EmptyString -> e <> EmptyString ->
    ext_of (stem ++ String "." e)%string = Str.lower e /\
    ext_of (dir ++ String "/" (stem ++ String "." e))%string = Str.lower e /\
    ext_of (dir ++ String "/" (String "." e))%string = EmptyString /\
    ext_of (dir ++ String "/" e)%string = EmptyString /\
    ext_of (dir ++ String "/" (stem ++ "."))%string = EmptyString.
Proof.
  intros dir stem e Hs He Hd NS NE.
  assert (Hn : has_char "/" (stem ++ String "." e)%string = false).
  { rewrite has_char_app. cbn [has_char]. rewrite Hs, He. reflexivity. }
  assert (X : forall nm, PathLib.name nm = (stem ++ String "." e)%string ->
                         ext_of nm = Str.lower e).
  { intros nm E. unfold ext_of, PathLib.suffix. rewrite E, rsplit_last by exact Hd.
    destruct stem; [contradiction|]. destruct e as [|x e]; [contradiction|].
    cbn [Str.is_empty orb Str.lower]. change (Str.lower_char ".") with "."%char.
    cbn [Str.lstrip_dot]. apply (lstrip_dot_lower (String x e) Hd). }
  split; [apply X, name_plain, Hn|]. split; [apply X, name_of_dir, Hn|]. split; [|split].
  - unfold ext_of, PathLib.suffix. rewrite name_of_dir.
    + pose proof (rsplit_last "." EmptyString e Hd) as R. cbn [String.append] in R.
      rewrite R. reflexivity.
    + cbn [has_char]. rewrite He. reflexivity.
  - unfold ext_of, PathLib.suffix. rewrite name_of_dir by exact He.
    rewrite rsplit_None by exact Hd. reflexivity.
  - unfold ext_of, PathLib.suffix. rewrite name_of_dir.
    + rewrite (rsplit_last "." stem EmptyString eq_refl).
      destruct stem; [contradiction | reflexivity].
    + rewrite has_char_app. cbn [has_char]. rewrite Hs. reflexivity.
Qed.

Lemma ext_of_last_component_witness :
  ext_of "pics/photo.JPG" = "jpg" /\ ext_of "pics/.JPG" = EmptyString.
Proof.
  destruct (ext_of_last_component "pics" "photo" "JPG" eq_refl eq_refl eq_refl
              ltac:(discriminate) ltac:(discriminate)) as (_ & A & B & _).
  split; [exact A | exact B].
Defined.

(** ** The paint handler never fails *)







(** ** The font size stays positive *)








(** ** At zoom 1.0 the pixmap is painted at its own size *)










(** ** Ticking Fit to Window twice *)

(** In every state the window can reach, clicking the Fit to Window box
    twice gives the state back, and one click changes neither the stored
    zoom nor the pixmap: unticking returns to the last manual zoom. *)
Theorem fit_click_twice_restores :
  forall (sys : System) (l : list Action),
    let w := run sys (init sys) l in
    click_fit (click_fit w) = w /\
    ImageView.zoom (image (click_fit w)) = ImageView.zoom (image w) /\
    ImageView._pix (image (click_fit w)) = ImageView._pix (image w) /\
    ImageView.fit_to_window (image (click_fit w)) = negb (ImageView.fit_to_window (image w)).
Proof.
  intros sys l w.
  assert (S : fit_synced w).
  { apply (run_invariant sys fit_synced).
    - split; reflexivity.
    - intros w0 a. apply fit_synced_step. }
  destruct S as [_ S]. clearbody w.
  destruct w as [cp rs tp tv tc tf tz [px zm ft vs] cf fe fc st rm dl fl].
  cbn in S. subst cf. unfold click_fit, setChecked. cbn.
  destruct ft; cbn; repeat split.
Qed.
